(** * file_manager.py: a mode-gated, menu-driven file manager

    A shallow embedding of [file_manager.py] and of the parts of Python's
    [os], [os.path] (posixpath) and [shutil] modules it calls.

    - The filesystem is a symlink-free POSIX tree: a regular file holds a
      string, a directory an ordered list of named entries ([os.listdir]
      returns the names in that order).
    - Program state (filesystem, clock, standard input, terminal output) is
      threaded through a state-and-exception monad [M]; an exception keeps
      the effects made before it, as in Python.
    - [posixpath] is modelled on strings ([isabs], [basename], [join],
      [normpath], [abspath], [relpath]); a path string names the node at its
      absolute normalised names.
    - [argparse] is not modelled: [main] starts from the parsed namespace
      [Args].  The block that rewrites [sys.argv] under the Spyder IDE is
      left out. *)

From Stdlib Require Import String Ascii List Bool Arith Lia DecimalString.
Import ListNotations.
Local Open Scope list_scope.
Local Open Scope string_scope.

#[local] Arguments Ascii.eqb : simpl never.

(** ** Python strings *)

Module Str.

Definition sep : ascii := "/"%char.

(** [s.startswith(p)] *)
Fixpoint startswith (s p : string) {struct p} : bool :=
  match p with
  | EmptyString => true
  | String a p' =>
      match s with
      | EmptyString => false
      | String b s' => Ascii.eqb a b && startswith s' p'
      end
  end.

(** [p in s] on strings: substring test. *)
Fixpoint contains (p s : string) : bool :=
  startswith s p ||
  match s with
  | EmptyString => false
  | String _ t => contains p t
  end.

(** [s.endswith("/")] *)
Fixpoint endswith_sep (s : string) : bool :=
  match s with
  | EmptyString => false
  | String c EmptyString => Ascii.eqb c sep
  | String _ t => endswith_sep t
  end.

(** [s.split("/")]: always at least one field. *)
Fixpoint split (s : string) : list string :=
  match s with
  | EmptyString => [EmptyString]
  | String c t =>
      if Ascii.eqb c sep then EmptyString :: split t
      else match split t with
           | [] => [String c EmptyString]
           | h :: r => String c h :: r
           end
  end.

(** ["/".join(l)] *)
Fixpoint join (l : list string) : string :=
  match l with
  | [] => EmptyString
  | [x] => x
  | x :: r => x ++ String sep (join r)
  end.

(** [s.rstrip("/")] *)
Fixpoint rstrip_sep (s : string) : string :=
  match s with
  | EmptyString => EmptyString
  | String c t =>
      match rstrip_sep t with
      | EmptyString => if Ascii.eqb c sep then EmptyString else String c EmptyString
      | t' => String c t'
      end
  end.

(** [str(n)] for a non-negative integer. *)
Definition of_nat (n : nat) : string := NilEmpty.string_of_uint (Nat.to_uint n).

Definition nonempty (s : string) : bool :=
  match s with EmptyString => false | _ => true end.

(** No separator occurs in [s]. *)
Fixpoint sepfree (s : string) : bool :=
  match s with
  | EmptyString => true
  | String c t => negb (Ascii.eqb c sep) && sepfree t
  end.

End Str.

(** ** posixpath *)

Module PosixPath.

Definition curdir := ".".
Definition pardir := "..".

(** [os.path.isabs] *)
Definition isabs (s : string) : bool := Str.startswith s "/".

(** [os.path.basename]: the text after the last separator. *)
Definition basename (p : string) : string := last (Str.split p) EmptyString.

(** [os.path.join(a, b)] *)
Definition join2 (a b : string) : string :=
  if Str.startswith b "/" then b
  else if negb (Str.nonempty a) || Str.endswith_sep a then a ++ b
  else a ++ String Str.sep b.

(** [os.path.join(a, *p)] *)
Definition join (a : string) (p : list string) : string := fold_left join2 p a.

(** One turn of the loop of [normpath]: [acc] is [new_comps], most recent
    component first. *)
Definition norm_step (rooted : bool) (acc : list string) (comp : string)
  : list string :=
  if String.eqb comp EmptyString || String.eqb comp curdir then acc
  else if negb (String.eqb comp pardir) then comp :: acc
  else match acc with
       | [] => if rooted then [] else [comp]
       | top :: below =>
           if String.eqb top pardir then comp :: acc else below
       end.

Definition norm_loop (rooted : bool) (comps : list string) : list string :=
  rev (fold_left (norm_step rooted) comps []).

(** The number of leading slashes [normpath] keeps: 0, 1 or 2. *)
Definition initial_slashes (path : string) : nat :=
  if Str.startswith path "/" then
    if Str.startswith path "//" && negb (Str.startswith path "///") then 2 else 1
  else 0.

(** [os.path.normpath] *)
Definition normpath (path : string) : string :=
  match path with
  | EmptyString => curdir
  | _ =>
      let n := initial_slashes path in
      let comps := norm_loop (negb (Nat.eqb n 0)) (Str.split path) in
      let body := Str.join comps in
      let res := match n with
                 | 0 => body
                 | 1 => "/" ++ body
                 | _ => "//" ++ body
                 end in
      match res with EmptyString => curdir | _ => res end
  end.

(** [os.path.abspath], given the value of [os.getcwd()]. *)
Definition abspath (cwd path : string) : string :=
  if isabs path then normpath path else normpath (join2 cwd path).

(** The non-empty fields of a path: [[x for x in p.split("/") if x]]. *)
Definition fields (p : string) : list string := filter Str.nonempty (Str.split p).

(** [len(os.path.commonprefix([a, b]))] on two lists. *)
Fixpoint common_len (a b : list string) : nat :=
  match a, b with
  | x :: a', y :: b' => if String.eqb x y then S (common_len a' b') else 0
  | _, _ => 0
  end.

(** [os.path.relpath(path, start)]; [None] is the [ValueError] raised for an
    empty [path]. *)
Definition relpath (cwd path start : string) : option string :=
  match path with
  | EmptyString => None
  | _ =>
      let start_list := fields (abspath cwd start) in
      let path_list := fields (abspath cwd path) in
      let i := common_len start_list path_list in
      let rel_list := (repeat pardir (length start_list - i) ++ skipn i path_list)%list in
      match rel_list with
      | [] => Some curdir
      | a :: p => Some (join a p)
      end
  end.

End PosixPath.

(** ** The directory tree *)

Module FS.

#[warnings="-register-all"]
Inductive node : Type :=
| File (data : string)
| Dir (entries : list (string * node)).

(** A path is the list of names from the root of the tree. *)
Definition path := list string.

Fixpoint assoc (k : string) (es : list (string * node)) : option node :=
  match es with
  | [] => None
  | (k', v) :: r => if String.eqb k k' then Some v else assoc k r
  end.

(** Replace the entry named [k], or add it at the end. *)
Fixpoint set_entry (k : string) (v : node) (es : list (string * node))
  : list (string * node) :=
  match es with
  | [] => [(k, v)]
  | (k', v') :: r =>
      if String.eqb k k' then (k, v) :: r else (k', v') :: set_entry k v r
  end.

Definition remove_entry (k : string) (es : list (string * node))
  : list (string * node) :=
  filter (fun e => negb (String.eqb k (fst e))) es.

Fixpoint lookup (p : path) (n : node) : option node :=
  match p with
  | [] => Some n
  | c :: cs =>
      match n with
      | File _ => None
      | Dir es =>
          match assoc c es with
          | Some m => lookup cs m
          | None => None
          end
      end
  end.

(** Bind [p] to [new]; the parent of [p] has to be a directory. *)
Fixpoint put (p : path) (new : node) (n : node) : option node :=
  match p with
  | [] => Some new
  | c :: cs =>
      match n with
      | File _ => None
      | Dir es =>
          match cs with
          | [] => Some (Dir (set_entry c new es))
          | _ :: _ =>
              match assoc c es with
              | Some m =>
                  match put cs new m with
                  | Some m' => Some (Dir (set_entry c m' es))
                  | None => None
                  end
              | None => None
              end
          end
      end
  end.

(** Unlink [p] with everything below it; the root cannot be unlinked. *)
Fixpoint del (p : path) (n : node) : option node :=
  match p with
  | [] => None
  | c :: cs =>
      match n with
      | File _ => None
      | Dir es =>
          match assoc c es with
          | Some m =>
              match cs with
              | [] => Some (Dir (remove_entry c es))
              | _ :: _ =>
                  match del cs m with
                  | Some m' => Some (Dir (set_entry c m' es))
                  | None => None
                  end
              end
          | None => None
          end
      end
  end.

(** A chain of fresh, nested directories. *)
Fixpoint chain (cs : path) : node :=
  match cs with
  | [] => Dir []
  | c :: r => Dir [(c, chain r)]
  end.

(** Create [p] and its missing ancestors; fails when [p] exists or when an
    ancestor is a regular file. *)
Fixpoint mkdirs (p : path) (n : node) : option node :=
  match p with
  | [] => None
  | c :: cs =>
      match n with
      | File _ => None
      | Dir es =>
          match assoc c es with
          | Some m =>
              match mkdirs cs m with
              | Some m' => Some (Dir (set_entry c m' es))
              | None => None
              end
          | None => Some (Dir (set_entry c (chain cs) es))
          end
      end
  end.

Fixpoint is_prefix (a b : path) : bool :=
  match a, b with
  | [], _ => true
  | x :: a', y :: b' => String.eqb x y && is_prefix a' b'
  | _ :: _, [] => false
  end.

Definition path_eqb (a b : path) : bool := is_prefix a b && is_prefix b a.

Definition is_dir (o : option node) : bool :=
  match o with Some (Dir _) => true | _ => false end.

Definition is_some (o : option node) : bool :=
  match o with Some _ => true | None => false end.

(** A name a directory entry can have. *)
Definition valid_name (s : string) : bool :=
  Str.nonempty s && Str.sepfree s
  && negb (String.eqb s ".") && negb (String.eqb s "..").

End FS.
Import FS.

(** ** Exceptions, the world and the monad of effects *)

Inductive exn : Type :=
| FileExistsError (p : string)
| FileNotFoundError (p : string)
| NotADirectoryError (p : string)
| IsADirectoryError (p : string)
| OSError (msg : string)
| SameFileError (src dst : string)
| ShutilError (msg : string)
| ValueError (msg : string)
| RuntimeError (msg : string)
| EOFError
| SystemExit (code : nat).

(** [except Exception] catches everything but [SystemExit]. *)
Definition is_Exception (e : exn) : bool :=
  match e with SystemExit _ => false | _ => true end.

(** [except OSError] *)
Definition is_OSError (e : exn) : bool :=
  match e with
  | ValueError _ | RuntimeError _ | EOFError | SystemExit _ => false
  | _ => true
  end.

(** [str(e)] *)
Definition exn_str (e : exn) : string :=
  match e with
  | FileExistsError p => "[Errno 17] File exists: '" ++ p ++ "'"
  | FileNotFoundError p => "[Errno 2] No such file or directory: '" ++ p ++ "'"
  | NotADirectoryError p => "[Errno 20] Not a directory: '" ++ p ++ "'"
  | IsADirectoryError p => "[Errno 21] Is a directory: '" ++ p ++ "'"
  | OSError msg => msg
  | SameFileError a b => "'" ++ a ++ "' and '" ++ b ++ "' are the same file"
  | ShutilError msg => msg
  | ValueError msg => msg
  | RuntimeError msg => msg
  | EOFError => "EOF when reading a line"
  | SystemExit c => Str.of_nat c
  end.

(** What the process writes to its terminal: a printed line, or the prompt of
    an [input] call. *)
Inductive event : Type :=
| Printed (line : string)
| Prompted (text : string).

(** The process environment: the home directory [~] expands to, the names of
    the working directory, and the wall clock read at the n-th log write. *)
Record Env : Type := {
  home : string;
  cwd_names : list string;
  now : nat -> string
}.

Definition getcwd (env : Env) : string := "/" ++ Str.join (cwd_names env).

Record World : Type := {
  fs : node;
  ticks : nat;
  stdin : list string;
  stdout : list event
}.

Definition with_fs (w : World) (t : node) : World :=
  {| fs := t; ticks := ticks w; stdin := stdin w; stdout := stdout w |}.

Definition emit (w : World) (e : event) : World :=
  {| fs := fs w; ticks := ticks w; stdin := stdin w;
     stdout := (stdout w ++ [e])%list |}.

(** A computation either returns a value or raises; the effects made before
    a raise stay. *)
Definition M (A : Type) : Type := World -> (exn + A) * World.

Definition ret {A} (a : A) : M A := fun w => (inr a, w).

Definition raise {A} (e : exn) : M A := fun w => (inl e, w).

Definition bind {A B} (c : M A) (k : A -> M B) : M B :=
  fun w =>
    match c w with
    | (inr a, w') => k a w'
    | (inl e, w') => (inl e, w')
    end.

(** [try: body except Exception as e: handler e] *)
Definition try_except {A} (body : M A) (handler : exn -> M A) : M A :=
  fun w =>
    match body w with
    | (inl e, w') => if is_Exception e then handler e w' else (inl e, w')
    | r => r
    end.

(** [try: body except OSError: handler] *)
Definition try_except_OSError {A} (body : M A) (handler : M A) : M A :=
  fun w =>
    match body w with
    | (inl e, w') => if is_OSError e then handler w' else (inl e, w')
    | r => r
    end.

Declare Scope py_scope.
Delimit Scope py_scope with py.
Notation "x <- c ;; k" := (bind c (fun x => k))
  (at level 61, c at next level, right associativity) : py_scope.
Notation "c ;; k" := (bind c (fun _ => k))
  (at level 61, right associativity) : py_scope.
Local Open Scope py_scope.

(** [print(line)] *)
Definition print (line : string) : M unit := fun w => (inr tt, emit w (Printed line)).

(** [input(text)] *)
Definition input (text : string) : M string :=
  fun w =>
    let w' := emit w (Prompted text) in
    match stdin w' with
    | [] => (inl EOFError, w')
    | l :: rest =>
        (inr l, {| fs := fs w'; ticks := ticks w'; stdin := rest; stdout := stdout w' |})
    end.

(** [sys.exit(code)] *)
Definition sys_exit {A} (code : nat) : M A := raise (SystemExit code).

(** Read the filesystem. *)
Definition ask {A} (f : node -> A) : M A := fun w => (inr (f (fs w)), w).

(** Run a system call that changes the filesystem or fails. *)
Definition syscall (f : node -> exn + node) : M unit :=
  fun w =>
    match f (fs w) with
    | inr t => (inr tt, with_fs w t)
    | inl e => (inl e, w)
    end.

(** ** os, os.path and shutil on the tree

    A path string names the node reached by the names of its absolute,
    normalised form ([os.path.abspath]); the empty string names nothing.
    The tree has no symbolic links, so this is the kernel's walk except on
    strings that step through a missing name or a regular file before a
    [..] or a trailing separator. *)

Section Os.

Variable env : Env.

Definition resolve (s : string) : path :=
  PosixPath.fields (PosixPath.abspath (getcwd env) s).

Definition locate (s : string) : option path :=
  match s with
  | EmptyString => None
  | _ => Some (resolve s)
  end.

(** [os.stat] *)
Definition stat (t : node) (s : string) : option node :=
  match locate s with
  | Some p => lookup p t
  | None => None
  end.

(** A proper prefix of [p] is a regular file. *)
Fixpoint through_file (p : path) (n : node) : bool :=
  match p, n with
  | [], _ => false
  | _ :: _, File _ => true
  | c :: cs, Dir es =>
      match assoc c es with
      | Some m => through_file cs m
      | None => false
      end
  end.

(** The error of a system call on a name that is not there. *)
Definition missing (t : node) (s : string) : exn :=
  match locate s with
  | Some p => if through_file p t then NotADirectoryError s else FileNotFoundError s
  | None => FileNotFoundError s
  end.

(** [os.path.expanduser("~")] *)
Definition expanduser_home : string := home env.

(** [os.path.exists] *)
Definition os_path_exists (s : string) : M bool :=
  ask (fun t => is_some (stat t s)).

(** [os.path.isdir] *)
Definition os_path_isdir (s : string) : M bool :=
  ask (fun t => is_dir (stat t s)).

(** [os.path.samefile], with the errors of [shutil._samefile] read as
    [False]. *)
Definition samefile (t : node) (a b : string) : bool :=
  is_some (stat t a) && is_some (stat t b) && path_eqb (resolve a) (resolve b).

(** [os.listdir] *)
Definition os_listdir (s : string) : M (list string) :=
  fun w =>
    match stat (fs w) s with
    | Some (Dir es) => (inr (map fst es), w)
    | Some (File _) => (inl (NotADirectoryError s), w)
    | None => (inl (missing (fs w) s), w)
    end.

(** [os.path.getsize]; the size of a directory inode is left at 0, the
    program asks for the size of non-directories only. *)
Definition os_path_getsize (s : string) : M nat :=
  fun w =>
    match stat (fs w) s with
    | Some (File data) => (inr (String.length data), w)
    | Some (Dir _) => (inr 0, w)
    | None => (inl (missing (fs w) s), w)
    end.

(** [os.path.relpath] *)
Definition os_path_relpath (p start : string) : M string :=
  match PosixPath.relpath (getcwd env) p start with
  | Some r => ret r
  | None => raise (ValueError "no path specified")
  end.

(** [os.makedirs(s)] with [exist_ok=False] *)
Definition makedirs (t : node) (s : string) : exn + node :=
  match locate s with
  | None => inl (FileNotFoundError s)
  | Some p =>
      match mkdirs p t with
      | Some t' => inr t'
      | None =>
          if is_some (lookup p t) then inl (FileExistsError s)
          else inl (NotADirectoryError s)
      end
  end.

Definition os_makedirs (s : string) : M unit := syscall (fun t => makedirs t s).

(** [open(dst, "wb")] followed by writing [data]: create or truncate. *)
Definition write_file (t : node) (dst data : string) : exn + node :=
  match locate dst with
  | None => inl (FileNotFoundError dst)
  | Some pd =>
      match lookup pd t with
      | Some (Dir _) => inl (IsADirectoryError dst)
      | _ =>
          match put pd (File data) t with
          | Some t' => inr t'
          | None => inl (missing t dst)
          end
      end
  end.

(** [shutil.copyfile] *)
Definition copyfile (t : node) (src dst : string) : exn + node :=
  if samefile t src dst then inl (SameFileError src dst)
  else match stat t src with
       | None => inl (missing t src)
       | Some (Dir _) => inl (IsADirectoryError src)
       | Some (File data) => write_file t dst data
       end.

(** [shutil.copy]: into [dst] when [dst] is a directory. *)
Definition shutil_copy (src dst : string) : M unit :=
  d <- os_path_isdir dst ;;
  let dst' := if d then PosixPath.join2 dst (PosixPath.basename src) else dst in
  syscall (fun t => copyfile t src dst').

(** The exception that ends a [copytree] which walks into its own output. *)
Definition RecursionError : exn := RuntimeError "maximum recursion depth exceeded".

(** [shutil.copytree(src, dst)]: list [src], create [dst] (which must not
    exist), then copy the listed entries.  When [dst] lies below an entry of
    the listing, the copy of that entry never ends by itself; the exception
    that stops it is raised here right after [dst] has been created. *)
Definition shutil_copytree (src dst : string) : M unit :=
  fun w =>
    match stat (fs w) src with
    | Some (Dir entries) =>
        (os_makedirs dst ;;
         let ps := resolve src in
         let pd := resolve dst in
         if is_prefix ps pd
            && is_some (assoc (nth (length ps) pd EmptyString) entries)
         then raise RecursionError
         else syscall (fun t =>
                match put pd (Dir entries) t with
                | Some t' => inr t'
                | None => inl (missing t dst)
                end)) w
    | Some (File _) => (inl (NotADirectoryError src), w)
    | None => (inl (missing (fs w) src), w)
    end.

(** [os.remove] *)
Definition remove (t : node) (s : string) : exn + node :=
  match stat t s with
  | None => inl (missing t s)
  | Some (Dir _) => inl (IsADirectoryError s)
  | Some (File _) =>
      match del (resolve s) t with
      | Some t' => inr t'
      | None => inl (OSError "[Errno 16] Device or resource busy")
      end
  end.

Definition os_remove (s : string) : M unit := syscall (fun t => remove t s).

(** [shutil.rmtree]; removing the root is refused as a whole. *)
Definition rmtree (t : node) (s : string) : exn + node :=
  match stat t s with
  | None => inl (missing t s)
  | Some (File _) => inl (NotADirectoryError s)
  | Some (Dir _) =>
      match del (resolve s) t with
      | Some t' => inr t'
      | None => inl (OSError "[Errno 16] Device or resource busy")
      end
  end.

Definition shutil_rmtree (s : string) : M unit := syscall (fun t => rmtree t s).

(** [os.rename] (POSIX [rename(2)]) *)
Definition rename (t : node) (src dst : string) : exn + node :=
  let ps := resolve src in
  let pd := resolve dst in
  match stat t src, locate dst with
  | None, _ => inl (missing t src)
  | Some _, None => inl (FileNotFoundError dst)
  | Some n, Some _ =>
      if path_eqb ps pd then inr t
      else if is_prefix ps pd then inl (OSError "[Errno 22] Invalid argument")
      else if is_prefix pd ps then inl (OSError "[Errno 39] Directory not empty")
      else
        let move_it :=
          match del ps t with
          | Some t1 =>
              match put pd n t1 with
              | Some t2 => inr t2
              | None => inl (missing t dst)
              end
          | None => inl (OSError "[Errno 16] Device or resource busy")
          end in
        match lookup pd t, n with
        | None, _ => move_it
        | Some (File _), File _ => move_it
        | Some (Dir []), Dir _ => move_it
        | Some (Dir _), File _ => inl (IsADirectoryError dst)
        | Some (File _), Dir _ => inl (NotADirectoryError dst)
        | Some (Dir (_ :: _)), Dir _ => inl (OSError "[Errno 39] Directory not empty")
        end
  end.

Definition os_rename (src dst : string) : M unit := syscall (fun t => rename t src dst).

(** [shutil._destinsrc] *)
Definition destinsrc (src dst : string) : bool :=
  let close s := if Str.endswith_sep s then s else s ++ "/" in
  Str.startswith (close (PosixPath.abspath (getcwd env) dst))
                 (close (PosixPath.abspath (getcwd env) src)).

(** [shutil.move] *)
Definition shutil_move (src dst : string) : M unit :=
  dst_is_dir <- os_path_isdir dst ;;
  same <- ask (fun t => samefile t src dst) ;;
  if dst_is_dir && same then os_rename src dst
  else
    let real_dst :=
      if dst_is_dir
      then PosixPath.join2 dst (PosixPath.basename (Str.rstrip_sep src))
      else dst in
    taken <- os_path_exists real_dst ;;
    if dst_is_dir && taken
    then raise (ShutilError ("Destination path '" ++ real_dst ++ "' already exists"))
    else
      try_except_OSError (os_rename src real_dst)
        (src_is_dir <- os_path_isdir src ;;
         if src_is_dir then
           if destinsrc src dst
           then raise (ShutilError ("Cannot move a directory '" ++ src
                                    ++ "' into itself '" ++ dst ++ "'."))
           else shutil_copytree src real_dst ;; shutil_rmtree src
         else shutil_copy src real_dst ;; os_remove src).

(** [open(s, "a")]: the file is created when missing; the handle is the
    place of the file. *)
Definition open_append (s : string) : M path :=
  fun w =>
    match locate s with
    | None => (inl (FileNotFoundError s), w)
    | Some p =>
        match lookup p (fs w) with
        | Some (Dir _) => (inl (IsADirectoryError s), w)
        | Some (File _) => (inr p, w)
        | None =>
            match put p (File EmptyString) (fs w) with
            | Some t' => (inr p, with_fs w t')
            | None => (inl (missing (fs w) s), w)
            end
        end
    end.

(** [f.write(text)] on a handle opened for appending. *)
Definition file_write (f : path) (text : string) : M unit :=
  syscall (fun t =>
    match lookup f t with
    | Some (File data) =>
        match put f (File (data ++ text)) t with
        | Some t' => inr t'
        | None => inl (OSError "[Errno 9] Bad file descriptor")
        end
    | _ => inl (OSError "[Errno 9] Bad file descriptor")
    end).

(** [datetime.now()], formatted. *)
Definition datetime_now : M string :=
  fun w =>
    (inr (now env (ticks w)),
     {| fs := fs w; ticks := S (ticks w); stdin := stdin w; stdout := stdout w |}).

(** [for x in l: body x] *)
Fixpoint for_each {A} (l : list A) (body : A -> M unit) : M unit :=
  match l with
  | [] => ret tt
  | x :: rest => body x ;; for_each rest body
  end.

End Os.

(** ** file_manager.py *)

Inductive mode : Type := basic | elevated | admin.

Definition mode_eqb (a b : mode) : bool :=
  match a, b with
  | basic, basic | elevated, elevated | admin, admin => true
  | _, _ => false
  end.

(** [args.m in [...]] *)
Definition mode_in (a : mode) (l : list mode) : bool := existsb (mode_eqb a) l.

(** The namespace [parse_arguments] returns: [-m] is required and one of the
    three choices, [-d] is optional. *)
Record Args : Type := { m : mode; d : option string }.

Definition newline : string := String (ascii_of_nat 10) EmptyString.

(** The root the start directory is checked against, and the start directory
    used when [-d] is absent or empty. *)
Definition ROOT : string := "/Users/harrisonryan".
Definition DEFAULT_DIR : string := "/Users/harrisonryan/Downloads".

Section Program.

Variable env : Env.

Definition setup_logging : M string :=
  let home_dir := expanduser_home env in
  let log_dir := PosixPath.join2 home_dir "Python_Log" in
  present <- os_path_exists env log_dir ;;
  (if negb present then os_makedirs env log_dir else ret tt) ;;
  let log_file := PosixPath.join2 log_dir "system_log.txt" in
  ret log_file.

Definition log_action (action log_file : string) : M unit :=
  f <- open_append env log_file ;;
  stamp <- datetime_now env ;;
  file_write f (stamp ++ ": " ++ action ++ newline).

Definition list_directory (path : string) : M unit :=
  try_except
    (entries <- os_listdir env path ;;
     for_each entries (fun entry =>
       let entry_path := PosixPath.join2 path entry in
       is_directory <- os_path_isdir env entry_path ;;
       if is_directory then print (entry ++ "/")
       else
         size <- os_path_getsize env entry_path ;;
         print (entry ++ " - " ++ Str.of_nat size ++ " bytes")))
    (fun e => print ("Error listing directory: " ++ exn_str e)).

Definition change_directory (current_path : string) : M string :=
  new_path <- input "Enter the new directory path: " ;;
  is_directory <- os_path_isdir env new_path ;;
  if negb is_directory then print "Invalid directory." ;; ret current_path
  else ret new_path.

Definition copy_item (source destination : string) : M unit :=
  try_except
    (is_directory <- os_path_isdir env source ;;
     if is_directory then
       shutil_copytree env source destination ;;
       print (PosixPath.basename source ++ " was copied to " ++ destination)
     else
       shutil_copy env source destination ;;
       print (PosixPath.basename source ++ " was copied to " ++ destination))
    (fun e => print ("Error copying item: " ++ exn_str e)).

Definition move_item (source destination : string) : M unit :=
  try_except
    (shutil_move env source destination ;;
     print (PosixPath.basename source ++ " was moved to " ++ destination))
    (fun e => print ("Error moving item: " ++ exn_str e)).

(** The backup target of [delete_item]. *)
Definition backup_target (item_path backup_dir : string) : string :=
  PosixPath.join2 backup_dir ("deleted_" ++ PosixPath.basename item_path).

Definition delete_item (item_path backup_dir : string) : M unit :=
  try_except
    (present <- os_path_exists env backup_dir ;;
     (if negb present then os_makedirs env backup_dir else ret tt) ;;
     let item_name := PosixPath.basename item_path in
     let backup_path := PosixPath.join2 backup_dir ("deleted_" ++ item_name) in
     is_directory <- os_path_isdir env item_path ;;
     (if is_directory then shutil_copytree env item_path backup_path
      else shutil_copy env item_path backup_path) ;;
     still_directory <- os_path_isdir env item_path ;;
     (if still_directory then shutil_rmtree env item_path
      else os_remove env item_path) ;;
     print (item_name ++ " was deleted and backed up."))
    (fun e => print ("Error deleting item: " ++ exn_str e)).

(** The local variables of [main] that live across iterations. *)
Record Locals : Type := {
  args : Args;
  log_file : string;
  current_dir : string
}.

(** Lines 164-171: the menu. *)
Definition show_menu (a : Args) : M unit :=
  print (newline ++ "Menu:") ;;
  print "1. List directory" ;;
  (if mode_in (m a) [elevated; admin] then print "2. Copy item" else ret tt) ;;
  (if mode_eqb (m a) admin
   then print "3. Move item" ;; print "4. Delete item"
   else ret tt) ;;
  print "0. Exit".

(** Lines 175-206: the chain of tests on [choice].  [None] is [break];
    otherwise the locals the next iteration starts from. *)
Definition dispatch (st : Locals) (choice : string) : M (option Locals) :=
  if String.eqb choice "0" then ret None
  else if String.eqb choice "1" then
    list_directory (current_dir st) ;; ret (Some st)
  else if String.eqb choice "2" && mode_in (m (args st)) [elevated; admin] then
    source <- input "Enter source path: " ;;
    destination <- input "Enter destination path: " ;;
    present <- os_path_exists env source ;;
    (if present then
       copy_item source destination ;;
       log_action ("Copied " ++ source ++ " to " ++ destination) (log_file st)
     else print "Source does not exist.") ;;
    ret (Some st)
  else if String.eqb choice "3" && mode_eqb (m (args st)) admin then
    source <- input "Enter source path: " ;;
    destination <- input "Enter destination path: " ;;
    present <- os_path_exists env source ;;
    (if present then
       move_item source destination ;;
       log_action ("Moved " ++ source ++ " to " ++ destination) (log_file st)
     else print "Source does not exist.") ;;
    ret (Some st)
  else if String.eqb choice "4" && mode_eqb (m (args st)) admin then
    item_path <- input "Enter path of item to delete: " ;;
    let backup_dir := PosixPath.join2 (expanduser_home env) "backups" in
    backup_present <- os_path_exists env backup_dir ;;
    (if negb backup_present then os_makedirs env backup_dir else ret tt) ;;
    present <- os_path_exists env item_path ;;
    (if present then
       delete_item item_path backup_dir ;;
       log_action ("Deleted " ++ item_path) (log_file st)
     else print "Item does not exist.") ;;
    ret (Some st)
  else
    print "Invalid choice." ;; ret (Some st).

(** One turn of [while True]. *)
Definition iteration (st : Locals) : M (option Locals) :=
  show_menu (args st) ;;
  choice <- input "Select an option: " ;;
  dispatch st choice.

(** [while True]; [None] when [fuel] turns do not reach the end. *)
Fixpoint loop (fuel : nat) (st : Locals) (w : World)
  : option ((exn + unit) * World) :=
  match fuel with
  | O => None
  | S fuel' =>
      match iteration st w with
      | (inr (Some st'), w') => loop fuel' st' w'
      | (inr None, w') => Some (inr tt, w')
      | (inl e, w') => Some (inl e, w')
      end
  end.

(** Line 155 *)
Definition start_dir (a : Args) : string :=
  match d a with
  | Some s => if Str.nonempty s then s else DEFAULT_DIR
  | None => DEFAULT_DIR
  end.

(** Line 158: the test that rejects the start directory, against [root]. *)
Definition path_rejected (root dir : string) : M bool :=
  if negb (PosixPath.isabs dir) then ret true
  else
    rel <- os_path_relpath env dir root ;;
    ret (Str.contains ".." rel).

(** Lines 153-160: everything before the loop. *)
Definition startup (a : Args) : M Locals :=
  log <- setup_logging ;;
  let dir := start_dir a in
  bad <- path_rejected ROOT dir ;;
  (if bad then print "Invalid directory path." ;; sys_exit 1 else ret tt) ;;
  ret {| args := a; log_file := log; current_dir := dir |}.

(** [main()]: every turn of the loop reads at least one line, so one more
    turn than there are lines on standard input is enough. *)
Definition main (a : Args) (w : World) : option ((exn + unit) * World) :=
  match startup a w with
  | (inr st, w') => loop (S (List.length (stdin w'))) st w'
  | (inl e, w') => Some (inl e, w')
  end.

(** The exit status of the process. *)
Definition exit_status (r : exn + unit) : nat :=
  match r with
  | inr _ => 0
  | inl (SystemExit c) => c
  | inl _ => 1
  end.

End Program.

(** ** Definitions used to state the properties *)

(** What a computation adds to the terminal. *)
Definition output_of {A} (c : M A) (w : World) : list event :=
  skipn (List.length (stdout w)) (stdout (snd (c w))).

Definition digit_of (c : ascii) : option nat :=
  let n := nat_of_ascii c in
  if (48 <=? n)%nat && (n <=? 57)%nat then Some (n - 48) else None.

(** The option a printed menu line offers: the digit before its first dot. *)
Definition option_of_line (e : event) : option nat :=
  match e with
  | Printed (String c (String "."%char _)) => digit_of c
  | _ => None
  end.

Definition menu_options (evs : list event) : list nat :=
  flat_map (fun e => match option_of_line e with Some n => [n] | None => [] end) evs.

(** The options the menu of one turn offers. *)
Definition offered (a : Args) (w : World) : list nat :=
  menu_options (output_of (show_menu a) w).

(** The gating table of the specification (4.6), column "Visible when". *)
Definition gating_table (md : mode) (choice : nat) : bool :=
  match choice with
  | 0 | 1 => true
  | 2 => match md with basic => false | elevated | admin => true end
  | 3 | 4 => match md with admin => true | basic | elevated => false end
  | _ => false
  end.

Definition strict_subset (a b : list nat) : Prop :=
  incl a b /\ ~ incl b a.

(** A choice of the table whose gating mode the current mode does not
    satisfy: 2 under basic; 3 or 4 under basic or elevated. *)
Definition not_permitted (md : mode) (choice : string) : bool :=
  (String.eqb choice "2" && mode_eqb md basic)
  || ((String.eqb choice "3" || String.eqb choice "4")
      && (mode_eqb md basic || mode_eqb md elevated)).

(** A start directory lies inside [root] when its names extend the root's. *)
Definition inside_root (env : Env) (root dir : string) : bool :=
  is_prefix (resolve env root) (resolve env dir).

(** The line [list_directory] prints for an entry of a directory. *)
Definition render (e : string * node) : event :=
  match e with
  | (name, Dir _) => Printed (name ++ "/")
  | (name, File data) =>
      Printed (name ++ " - " ++ Str.of_nat (String.length data) ++ " bytes")
  end.

(** The regular file at [p], if any. *)
Definition read_file (t : node) (p : path) : option string :=
  match lookup p t with
  | Some (File data) => Some data
  | _ => None
  end.

(** The prompt of [change_directory]. *)
Definition cd_prompt : event := Prompted "Enter the new directory path: ".

(** The locals at the start of every turn of the loop, in order. *)
Fixpoint turns (env : Env) (fuel : nat) (st : Locals) (w : World) : list Locals :=
  match fuel with
  | O => []
  | S fuel' =>
      st :: match iteration env st w with
            | (inr (Some st'), w') => turns env fuel' st' w'
            | _ => []
            end
  end.

(** A sample machine: the home directory of user [u] with a file, two
    directories of the same name and an earlier backup. *)
Definition env0 : Env :=
  {| home := "/home/u"; cwd_names := ["home"; "u"];
     now := fun n => "2024-01-01 00:00:0" ++ Str.of_nat n |}.

Definition fs0 : node :=
  Dir [("home",
        Dir [("u",
              Dir [("a.txt", File "0123456789");
                   ("a", Dir [("N", Dir [("x", File "1")]); ("n.txt", File "first")]);
                   ("b", Dir [("N", Dir [("y", File "2")]); ("n.txt", File "second")]);
                   ("Python_Log", Dir [("system_log.txt", File EmptyString)]);
                   ("backups", Dir [("deleted_old", File "old")])])])].

Definition world0 (lines : list string) : World :=
  {| fs := fs0; ticks := 0; stdin := lines; stdout := [] |}.

Definition locals0 (md : mode) : Locals :=
  {| args := {| m := md; d := None |};
     log_file := "/home/u/Python_Log/system_log.txt";
     current_dir := "/home/u" |}.

(** ** Definitions used in the proofs *)

(** Neither path is a prefix of the other. *)
Definition apart (p q : path) : Prop :=
  is_prefix p q = false /\ is_prefix q p = false.

(** A name between two separators of a normalised path. *)
Definition plain (s : string) : bool := Str.nonempty s && Str.sepfree s.

(** The absolute string [abspath] normalises. *)
Definition absolute (env : Env) (s : string) : string :=
  if PosixPath.isabs s then s else PosixPath.join2 (getcwd env) s.

(** The prefix [os.path.join] puts before a relative path. *)
Definition under_cwd (env : Env) (x : string) : string :=
  if negb (Str.nonempty (getcwd env)) || Str.endswith_sep (getcwd env)
  then getcwd env ++ x else getcwd env ++ String Str.sep x.

(** The world after more terminal output. *)
Definition emits (w : World) (evs : list event) : World :=
  {| fs := fs w; ticks := ticks w; stdin := stdin w;
     stdout := (stdout w ++ evs)%list |}.

(** The body of the [for] loop of [list_directory]. *)
Definition list_entry (env : Env) (path entry : string) : M unit :=
  let entry_path := PosixPath.join2 path entry in
  bind (os_path_isdir env entry_path) (fun is_directory =>
    if is_directory then print (entry ++ "/")
    else bind (os_path_getsize env entry_path) (fun size =>
           print (entry ++ " - " ++ Str.of_nat size ++ " bytes"))).

(** What a computation leaves alone. *)
Definition same_machine (w w' : World) : Prop :=
  fs w' = fs w /\ ticks w' = ticks w /\ stdin w' = stdin w.

Definition no_cd (w : World) : Prop := ~ In cd_prompt (stdout w).

(** A tame computation never shows the prompt of [change_directory], never
    adds to the pending input, and raises nothing but an [Exception]. *)
Definition tame {A} (c : M A) : Prop :=
  forall w,
    (no_cd w -> no_cd (snd (c w))) /\
    List.length (stdin (snd (c w))) <= List.length (stdin w) /\
    (forall e, fst (c w) = inl e -> is_Exception e = true).

(** The world after [/home/u/a/n.txt] has been deleted on the sample machine. *)
Definition world_after_first_delete : World :=
  snd (delete_item env0 "/home/u/a/n.txt" "/home/u/backups" (world0 [])).

(** What the file at [f] holds, nothing when it is not there. *)
Definition old_content (t : node) (f : path) : string :=
  match read_file t f with Some data => data | None => EmptyString end.

(** The world once [input] has shown [texts] and read as many lines, [rest]
    being the lines left. *)
Definition prompted (w : World) (texts rest : list string) : World :=
  {| fs := fs w; ticks := ticks w; stdin := rest;
     stdout := (stdout w ++ map Prompted texts)%list |}.

(** What the dispatcher hands back once it has called [log_action]. *)
Definition logged (env : Env) (st : Locals) (action : string) (w : World)
  : (exn + option Locals) * World :=
  match log_action env action (log_file st) w with
  | (inr _, w') => (inr (Some st), w')
  | (inl e, w') => (inl e, w')
  end.

(** Lines 197-199: the backup directory is made when it is missing. *)
Definition ensure_backup_dir (env : Env) : M unit :=
  let backup_dir := PosixPath.join2 (expanduser_home env) "backups" in
  bind (os_path_exists env backup_dir) (fun backup_present =>
    if negb backup_present then os_makedirs env backup_dir else ret tt).

(** The regular files of two trees are the same. *)
Definition same_files (t t' : node) : Prop :=
  forall q data, lookup q t' = Some (File data) <-> lookup q t = Some (File data).

(** Lines 130-137 of [delete_item]: everything up to the backup copy. *)
Definition backup_step (env : Env) (item_path backup_dir : string) : M unit :=
  bind (os_path_exists env backup_dir) (fun present =>
  bind (if negb present then os_makedirs env backup_dir else ret tt) (fun _ =>
  let backup_path := backup_target item_path backup_dir in
  bind (os_path_isdir env item_path) (fun is_directory =>
  if is_directory then shutil_copytree env item_path backup_path
  else shutil_copy env item_path backup_path))).

(** Everything that is in [t] is still in [t']. *)
Definition grown (t t' : node) : Prop :=
  forall q, is_some (lookup q t) = true -> is_some (lookup q t') = true.

(** ** Definitions for further properties of the program *)

(** The names of [dir] below the names of [root]. *)
Definition below_root (env : Env) (root dir : string) : list string :=
  skipn (List.length (resolve env root)) (resolve env dir).

(** No name has [..] in its text. *)
Definition dotdot_free (names : list string) : bool :=
  forallb (fun n => negb (Str.contains ".." n)) names.

(** A view of the world that system calls and terminal output do not
    change: the pending input, the clock. *)
Definition blind {X} (proj : World -> X) : Prop :=
  (forall w t, proj (with_fs w t) = proj w) /\
  (forall w e, proj (emit w e) = proj w).

(** The computation leaves the view as it was. *)
Definition keeps {X A} (proj : World -> X) (c : M A) : Prop :=
  forall w, proj (snd (c w)) = proj w.

(** The computation only takes lines off the front of the pending input. *)
Definition pops {A} (c : M A) : Prop :=
  forall w, exists k, stdin (snd (c w)) = skipn k (stdin w).

(** ** Running the monad *)

Example split_ex : Str.split "/a//b/" = [""; "a"; ""; "b"; ""].
Proof. reflexivity. Qed.
Example basename_ex : PosixPath.basename "/x/y/a.txt" = "a.txt".
Proof. reflexivity. Qed.
Example normpath_ex1 : PosixPath.normpath "/root/../etc" = "/etc".
Proof. reflexivity. Qed.
Example normpath_ex2 : PosixPath.normpath "a/./b/../../.." = "..".
Proof. reflexivity. Qed.
Example normpath_ex3 : PosixPath.normpath "//a/b/" = "//a/b".
Proof. reflexivity. Qed.
Example relpath_ex1 : PosixPath.relpath "/" "/root/../etc" "/root" = Some "../etc".
Proof. reflexivity. Qed.
Example relpath_ex2 : PosixPath.relpath "/" "/root/sub" "/root" = Some "sub".
Proof. reflexivity. Qed.
Example relpath_ex3 : PosixPath.relpath "/" "/etc/x" "/Users/harrisonryan" = Some "../../etc/x".
Proof. reflexivity. Qed.
Example of_nat_ex : Str.of_nat 10 = "10" /\ Str.of_nat 0 = "0".
Proof. split; reflexivity. Qed.


Lemma skipn_length_app {A} (l l' : list A) : skipn (List.length l) (l ++ l')%list = l'.
Proof. induction l; simpl; auto. Qed.

Lemma emit_stdout w e : stdout (emit w e) = (stdout w ++ [e])%list.
Proof. reflexivity. Qed.

(** ** The menu and the gate (C3, C1) *)

Lemma show_menu_output (a : Args) (w : World) :
  output_of (show_menu a) w =
  match m a with
  | basic =>
      [Printed (newline ++ "Menu:"); Printed "1. List directory"; Printed "0. Exit"]
  | elevated =>
      [Printed (newline ++ "Menu:"); Printed "1. List directory";
       Printed "2. Copy item"; Printed "0. Exit"]
  | admin =>
      [Printed (newline ++ "Menu:"); Printed "1. List directory";
       Printed "2. Copy item"; Printed "3. Move item"; Printed "4. Delete item";
       Printed "0. Exit"]
  end.
Proof.
  unfold output_of, show_menu.
  destruct (m a); cbn [bind print ret mode_in mode_eqb existsb orb snd emit stdout];
    repeat rewrite <- app_assoc; cbn [app]; apply skipn_length_app.
Qed.

Lemma offered_by_mode (a : Args) (w : World) :
  offered a w =
  match m a with
  | basic => [1; 0]
  | elevated => [1; 2; 0]
  | admin => [1; 2; 3; 4; 0]
  end.
Proof.
  unfold offered. rewrite show_menu_output. destruct (m a); reflexivity.
Qed.

(** C3: for every mode the menu offers exactly the options the gating table
    makes visible ({0,1} under basic, 2 added under elevated, 3 and 4 added
    under admin), and the offered sets form the strict chain
    basic < elevated < admin. *)
Theorem menu_is_the_gating_table :
  forall (a : Args) (w : World),
    fst (show_menu a w) = inr tt /\
    (forall n, In n (offered a w) <-> gating_table (m a) n = true) /\
    (forall d1 d2 d3 w1 w2 w3,
        strict_subset (offered {| m := basic; d := d1 |} w1)
                      (offered {| m := elevated; d := d2 |} w2) /\
        strict_subset (offered {| m := elevated; d := d2 |} w2)
                      (offered {| m := admin; d := d3 |} w3)).
Proof.
  intros a w. split; [| split].
  - unfold show_menu. destruct (m a); reflexivity.
  - intro n. rewrite offered_by_mode.
    destruct (m a); simpl;
      (split; [ intros H; repeat (destruct H as [<- | H]; [reflexivity |]); contradiction
              | do 5 (destruct n as [| n]; try discriminate; auto 6) ]).
  - intros. rewrite !offered_by_mode. cbn [m]. unfold strict_subset, incl. simpl.
    repeat split.
    + intros x H. intuition.
    + intros H. specialize (H 2). simpl in H.
      destruct H as [H | [H | []]]; [auto | discriminate | discriminate].
    + intros x H. intuition.
    + intros H. specialize (H 3). simpl in H.
      destruct H as [H | [H | [H | []]]]; [auto 6 | discriminate ..].
Qed.

(** C1: a choice whose gating mode the current mode does not satisfy falls
    through to the last branch: the only effect is the line
    "Invalid choice."; the filesystem, the clock and the pending input are
    untouched and the locals are handed on as they were. *)
Theorem gated_choice_is_invalid :
  forall (env : Env) (st : Locals) (choice : string) (w : World),
    not_permitted (m (args st)) choice = true ->
    dispatch env st choice w = (inr (Some st), emit w (Printed "Invalid choice.")).
Proof.
  intros env st choice w H. unfold not_permitted in H.
  apply orb_true_iff in H. destruct H as [H | H];
    apply andb_true_iff in H; destruct H as [Hc Hm].
  - apply String.eqb_eq in Hc. subst choice.
    unfold dispatch. destruct (m (args st)); try discriminate. reflexivity.
  - apply orb_true_iff in Hc.
    destruct Hc as [Hc | Hc]; apply String.eqb_eq in Hc; subst choice;
      unfold dispatch; destruct (m (args st)); try discriminate; reflexivity.
Qed.

Lemma gated_choice_is_invalid_witness :
  dispatch env0 (locals0 basic) "3" (world0 []) =
  (inr (Some (locals0 basic)), emit (world0 []) (Printed "Invalid choice.")).
Proof. apply (gated_choice_is_invalid env0 (locals0 basic) "3" (world0 [])). reflexivity. Defined.

(** ** The directory tree: lookups after updates *)

Lemma assoc_set_same k v es : assoc k (set_entry k v es) = Some v.
Proof.
  induction es as [| [k' v'] r IH]; simpl.
  - now rewrite String.eqb_refl.
  - destruct (String.eqb_spec k k') as [-> | Hne]; simpl.
    + now rewrite String.eqb_refl.
    + destruct (String.eqb_spec k k'); [contradiction | exact IH].
Qed.

Lemma assoc_set_other k k' v es :
  k' <> k -> assoc k' (set_entry k v es) = assoc k' es.
Proof.
  intros Hne. induction es as [| [k2 v2] r IH]; simpl.
  - destruct (String.eqb_spec k' k); [contradiction | reflexivity].
  - destruct (String.eqb_spec k k2) as [-> | Hk]; simpl.
    + destruct (String.eqb_spec k' k2); [contradiction | reflexivity].
    + now rewrite IH.
Qed.

Lemma assoc_remove_same k es : assoc k (remove_entry k es) = None.
Proof.
  induction es as [| [k' v'] r IH]; simpl; auto.
  destruct (String.eqb_spec k k') as [-> | Hne]; simpl; auto.
  destruct (String.eqb_spec k k'); [contradiction | exact IH].
Qed.

Lemma assoc_remove_other k k' es :
  k' <> k -> assoc k' (remove_entry k es) = assoc k' es.
Proof.
  intros Hne. induction es as [| [k2 v2] r IH]; simpl; auto.
  destruct (String.eqb_spec k k2) as [-> | Hk]; simpl.
  - destruct (String.eqb_spec k' k2); [contradiction | exact IH].
  - now rewrite IH.
Qed.

Lemma assoc_in_nodup name n es :
  NoDup (map fst es) -> In (name, n) es -> assoc name es = Some n.
Proof.
  induction es as [| [k v] r IH]; simpl; intros Hnd Hin; [contradiction |].
  inversion Hnd as [| ? ? Hnotin Hnd']; subst.
  destruct Hin as [Heq | Hin].
  - inversion Heq; subst. now rewrite String.eqb_refl.
  - destruct (String.eqb_spec name k) as [-> | Hne].
    + exfalso. apply Hnotin. apply (in_map fst) in Hin. exact Hin.
    + auto.
Qed.

Lemma lookup_app p q t :
  lookup (p ++ q)%list t =
  match lookup p t with Some n => lookup q n | None => None end.
Proof.
  revert t. induction p as [| c cs IH]; intros t; simpl; auto.
  destruct t as [data | es]; auto.
  destruct (assoc c es); auto.
Qed.

Lemma is_prefix_refl p : is_prefix p p = true.
Proof. induction p; simpl; auto. now rewrite String.eqb_refl. Qed.

Lemma path_eqb_eq a b : path_eqb a b = true <-> a = b.
Proof.
  unfold path_eqb. split.
  - revert b. induction a as [| x a IH]; intros [| y b]; simpl; auto;
      try discriminate.
    intros H. apply andb_true_iff in H. destruct H as [H1 H2].
    apply andb_true_iff in H1. destruct H1 as [Hxy H1].
    apply andb_true_iff in H2. destruct H2 as [_ H2].
    apply String.eqb_eq in Hxy. subst. f_equal. apply IH.
    now rewrite H1, H2.
  - intros ->. now rewrite is_prefix_refl.
Qed.

Lemma mkdirs_exists p : forall t n, lookup p t = Some n -> mkdirs p t = None.
Proof.
  induction p as [| c cs IH]; intros t n H; simpl in *; auto.
  destruct t as [data | es]; auto.
  destruct (assoc c es) as [m0 |]; [| discriminate].
  now rewrite (IH _ _ H).
Qed.

Lemma put_lookup_same p v : forall t t', put p v t = Some t' -> lookup p t' = Some v.
Proof.
  induction p as [| c cs IH]; intros t t' H; simpl in *.
  - congruence.
  - destruct t as [data | es]; [discriminate |].
    destruct cs as [| c2 r].
    + inversion H; subst. simpl. now rewrite assoc_set_same.
    + destruct (assoc c es) as [m0 |]; [| discriminate].
      destruct (put (c2 :: r) v m0) as [m' |] eqn:Hput; [| discriminate].
      inversion H; subst. cbn [lookup]. rewrite assoc_set_same. eauto.
Qed.

Lemma put_succeeds p v : forall t n, lookup p t = Some n -> exists t', put p v t = Some t'.
Proof.
  induction p as [| c cs IH]; intros t n H; simpl in *; eauto.
  destruct t as [data | es]; [discriminate |].
  destruct cs as [| c2 r]; eauto.
  destruct (assoc c es) as [m0 |]; [| discriminate].
  destruct (IH _ _ H) as [m' ->]. eauto.
Qed.

Lemma put_lookup_other p v : forall q t t',
  apart p q -> put p v t = Some t' -> lookup q t' = lookup q t.
Proof.
  induction p as [| c cs IH]; intros q t t' [Hpq Hqp] H.
  - discriminate.
  - destruct q as [| k ks]; [discriminate |].
    simpl in Hpq, Hqp. simpl in H.
    destruct t as [data | es]; [discriminate |].
    destruct (String.eqb_spec c k) as [-> | Hne].
    + rewrite String.eqb_refl in Hqp. simpl in Hpq, Hqp.
      destruct cs as [| c2 r]; [discriminate |].
      destruct (assoc k es) as [m0 |] eqn:Hm; [| discriminate].
      destruct (put (c2 :: r) v m0) as [m' |] eqn:Hput; [| discriminate].
      inversion H; subst. cbn [lookup]. rewrite assoc_set_same, Hm.
      apply (IH ks m0 m'); [split; assumption | assumption].
    + assert (Hset : forall x, assoc k (set_entry c x es) = assoc k es)
        by (intro x; apply assoc_set_other; congruence).
      destruct cs as [| c2 r].
      * inversion H; subst. cbn [lookup]. now rewrite Hset.
      * destruct (assoc c es) as [m0 |]; [| discriminate].
        destruct (put (c2 :: r) v m0) as [m' |]; [| discriminate].
        inversion H; subst. cbn [lookup]. now rewrite Hset.
Qed.

Lemma del_succeeds p : forall t n,
  p <> [] -> lookup p t = Some n -> exists t', del p t = Some t'.
Proof.
  induction p as [| c cs IH]; intros t n Hne H; [congruence |].
  simpl in *. destruct t as [data | es]; [discriminate |].
  destruct (assoc c es) as [m0 |]; [| discriminate].
  destruct cs as [| c2 r]; eauto.
  destruct (IH m0 n) as [m' ->]; [discriminate | assumption | eauto].
Qed.

Lemma del_lookup_same p : forall t t', del p t = Some t' -> lookup p t' = None.
Proof.
  induction p as [| c cs IH]; intros t t' H; simpl in *; [discriminate |].
  destruct t as [data | es]; [discriminate |].
  destruct (assoc c es) as [m0 |]; [| discriminate].
  destruct cs as [| c2 r].
  - inversion H; subst. simpl. now rewrite assoc_remove_same.
  - destruct (del (c2 :: r) m0) as [m' |] eqn:Hdel; [| discriminate].
    inversion H; subst. cbn [lookup]. rewrite assoc_set_same. eauto.
Qed.

Lemma del_lookup_other p : forall q t t',
  apart p q -> del p t = Some t' -> lookup q t' = lookup q t.
Proof.
  induction p as [| c cs IH]; intros q t t' [Hpq Hqp] H.
  - discriminate.
  - destruct q as [| k ks]; [discriminate |].
    simpl in Hpq, Hqp. simpl in H.
    destruct t as [data | es]; [discriminate |].
    destruct (String.eqb_spec c k) as [-> | Hne].
    + rewrite String.eqb_refl in Hqp. simpl in Hpq, Hqp.
      destruct (assoc k es) as [m0 |] eqn:Hm; [| discriminate].
      destruct cs as [| c2 r]; [discriminate |].
      destruct (del (c2 :: r) m0) as [m' |] eqn:Hdel; [| discriminate].
      inversion H; subst. cbn [lookup]. rewrite assoc_set_same, Hm.
      apply (IH ks m0 m'); [split; assumption | assumption].
    + destruct (assoc c es) as [m0 |]; [| discriminate].
      destruct cs as [| c2 r].
      * inversion H; subst. cbn [lookup].
        rewrite assoc_remove_other by congruence. reflexivity.
      * destruct (del (c2 :: r) m0) as [m' |]; [| discriminate].
        inversion H; subst. cbn [lookup].
        rewrite assoc_set_other by congruence. reflexivity.
Qed.

Lemma chain_no_file cs : forall q data, lookup q (chain cs) <> Some (File data).
Proof.
  induction cs as [| c r IH]; intros [| k ks] data; simpl; try discriminate.
  destruct (String.eqb k c); [apply IH | discriminate].
Qed.

(** [mkdirs] writes no regular file and touches none. *)
Lemma mkdirs_files p : forall t t' q data,
  mkdirs p t = Some t' ->
  (lookup q t' = Some (File data) <-> lookup q t = Some (File data)).
Proof.
  induction p as [| c cs IH]; intros t t' q data H; simpl in H; [discriminate |].
  destruct t as [fd | es]; [discriminate |].
  destruct (assoc c es) as [m0 |] eqn:Hm.
  - destruct (mkdirs cs m0) as [m' |] eqn:Hmk; [| discriminate].
    inversion H; subst. destruct q as [| k ks]; simpl.
    + split; discriminate.
    + destruct (String.eqb_spec k c) as [-> | Hne].
      * rewrite assoc_set_same, Hm. now apply IH.
      * rewrite assoc_set_other by assumption. reflexivity.
  - inversion H; subst. destruct q as [| k ks]; simpl.
    + split; discriminate.
    + destruct (String.eqb_spec k c) as [-> | Hne].
      * rewrite assoc_set_same, Hm. split; [| discriminate].
        intros Hc. now apply chain_no_file in Hc.
      * rewrite assoc_set_other by assumption. reflexivity.
Qed.

(** ** Strings and path names *)

Lemma split_nonnil s : Str.split s <> [].
Proof.
  destruct s as [| c t]; simpl; [discriminate |].
  destruct (Ascii.eqb c Str.sep); [discriminate |].
  destruct (Str.split t); discriminate.
Qed.

Lemma split_sepfree s : Forall (fun x => Str.sepfree x = true) (Str.split s).
Proof.
  induction s as [| c t IH]; simpl.
  - repeat constructor.
  - destruct (Ascii.eqb c Str.sep) eqn:Hc.
    + constructor; [reflexivity | exact IH].
    + destruct (Str.split t) as [| h r].
      * constructor; [| constructor]. simpl. now rewrite Hc.
      * inversion IH; subst. constructor; [| assumption].
        simpl. now rewrite Hc.
Qed.

Lemma split_of_sepfree x : Str.sepfree x = true -> Str.split x = [x].
Proof.
  induction x as [| c t IH]; simpl; auto.
  intros H. apply andb_true_iff in H. destruct H as [Hc Ht].
  apply negb_true_iff in Hc. rewrite Hc, (IH Ht). reflexivity.
Qed.

Lemma split_app_sep a b :
  Str.split (a ++ String Str.sep b) = (Str.split a ++ Str.split b)%list.
Proof.
  induction a as [| c t IH]; simpl.
  - reflexivity.
  - destruct (Ascii.eqb c Str.sep).
    + now rewrite IH.
    + rewrite IH. destruct (Str.split t) as [| h r] eqn:Ht.
      * now apply split_nonnil in Ht.
      * reflexivity.
Qed.

Lemma append_assoc (a b c : string) : (a ++ b) ++ c = a ++ (b ++ c).
Proof. induction a; simpl; congruence. Qed.

Lemma append_nil_r (a : string) : a ++ "" = a.
Proof. induction a; simpl; congruence. Qed.

Lemma fields_join l :
  Forall (fun x => plain x = true) l -> PosixPath.fields (Str.join l) = l.
Proof.
  unfold PosixPath.fields.
  induction l as [| x r IH]; intros H; [reflexivity |].
  inversion H as [| ? ? Hx Hr]; subst.
  unfold plain in Hx. apply andb_true_iff in Hx. destruct Hx as [Hne Hsf].
  destruct r as [| y r'].
  - simpl. rewrite (split_of_sepfree _ Hsf). simpl. now rewrite Hne.
  - change (Str.join (x :: y :: r')) with (x ++ String Str.sep (Str.join (y :: r'))).
    rewrite split_app_sep, (split_of_sepfree _ Hsf). simpl.
    rewrite Hne. f_equal. apply IH. assumption.
Qed.

Lemma norm_step_plain rooted acc comp :
  Forall (fun x => plain x = true) acc ->
  Str.sepfree comp = true ->
  Forall (fun x => plain x = true) (PosixPath.norm_step rooted acc comp).
Proof.
  intros Hacc Hsf. unfold PosixPath.norm_step.
  assert (Hplain : String.eqb comp "" = false -> plain comp = true).
  { intros Hne. unfold plain. rewrite Hsf, andb_true_r.
    destruct comp; [discriminate | reflexivity]. }
  destruct (String.eqb comp "") eqn:He; simpl; [assumption |].
  destruct (String.eqb comp PosixPath.curdir); [assumption |].
  destruct (String.eqb comp PosixPath.pardir); simpl.
  - destruct acc as [| top below].
    + destruct rooted; [constructor | constructor; auto].
    + destruct (String.eqb top PosixPath.pardir); [constructor; auto |].
      now inversion Hacc.
  - constructor; auto.
Qed.

Lemma norm_fold_plain rooted comps : forall acc,
  Forall (fun x => plain x = true) acc ->
  Forall (fun x => Str.sepfree x = true) comps ->
  Forall (fun x => plain x = true) (fold_left (PosixPath.norm_step rooted) comps acc).
Proof.
  induction comps as [| c r IH]; intros acc Hacc Hc; simpl; [assumption |].
  inversion Hc; subst. apply IH; [| assumption]. now apply norm_step_plain.
Qed.

Lemma norm_loop_plain rooted s :
  Forall (fun x => plain x = true) (PosixPath.norm_loop rooted (Str.split s)).
Proof.
  unfold PosixPath.norm_loop. apply Forall_rev.
  apply norm_fold_plain; [constructor | apply split_sepfree].
Qed.

Lemma fields_cons_sep s : PosixPath.fields (String Str.sep s) = PosixPath.fields s.
Proof. reflexivity. Qed.

(** The names of a normalised absolute path are what the loop of [normpath]
    leaves. *)
Lemma fields_normpath_abs x :
  PosixPath.isabs x = true ->
  PosixPath.fields (PosixPath.normpath x) = PosixPath.norm_loop true (Str.split x).
Proof.
  intros Habs. unfold PosixPath.normpath.
  destruct x as [| c t]; [discriminate |].
  unfold PosixPath.initial_slashes.
  unfold PosixPath.isabs in Habs. rewrite Habs.
  pose proof (norm_loop_plain true (String c t)) as Hplain.
  destruct (Str.startswith (String c t) "//" && negb (Str.startswith (String c t) "///"));
    cbn [Nat.eqb negb];
    set (comps := PosixPath.norm_loop true (Str.split (String c t))) in *.
  - change ("//" ++ Str.join comps) with (String Str.sep (String Str.sep (Str.join comps))).
    cbv iota. rewrite !fields_cons_sep. now apply fields_join.
  - change ("/" ++ Str.join comps) with (String Str.sep (Str.join comps)).
    cbv iota. rewrite fields_cons_sep. now apply fields_join.
Qed.

Lemma absolute_isabs env s : PosixPath.isabs (absolute env s) = true.
Proof.
  unfold absolute. destruct (PosixPath.isabs s) eqn:H; [assumption |].
  unfold PosixPath.join2, PosixPath.isabs in *. rewrite H.
  destruct (negb (Str.nonempty (getcwd env)) || Str.endswith_sep (getcwd env));
    reflexivity.
Qed.

Lemma abspath_absolute env s :
  PosixPath.abspath (getcwd env) s = PosixPath.normpath (absolute env s).
Proof.
  unfold PosixPath.abspath, absolute. now destruct (PosixPath.isabs s).
Qed.

Lemma resolve_norm env s :
  resolve env s = PosixPath.norm_loop true (Str.split (absolute env s)).
Proof.
  unfold resolve. rewrite abspath_absolute.
  apply fields_normpath_abs, absolute_isabs.
Qed.

Lemma resolve_plain env s : Forall (fun x => plain x = true) (resolve env s).
Proof. rewrite resolve_norm. apply norm_loop_plain. Qed.

Lemma valid_name_parts name :
  valid_name name = true ->
  Str.nonempty name = true /\ Str.sepfree name = true /\
  String.eqb name "." = false /\ String.eqb name ".." = false.
Proof.
  unfold valid_name. intros H.
  repeat (apply andb_true_iff in H; destruct H as [H ?]).
  repeat split; auto; now apply negb_true_iff.
Qed.

Lemma sepfree_not_abs s : Str.sepfree s = true -> Str.startswith s "/" = false.
Proof.
  destruct s as [| c t]; simpl; auto.
  intros H. apply andb_true_iff in H. destruct H as [Hc _].
  apply negb_true_iff in Hc. rewrite andb_true_r.
  rewrite Ascii.eqb_sym. exact Hc.
Qed.

Lemma startswith_app s x p :
  Str.startswith s p = true -> Str.startswith (s ++ x) p = true.
Proof.
  revert s. induction p as [| a p IH]; intros s H; simpl in *; auto.
  destruct s as [| b s]; [discriminate |]. simpl.
  apply andb_true_iff in H. destruct H as [-> H]. simpl. auto.
Qed.

Lemma isabs_app s x : s <> "" -> PosixPath.isabs (s ++ x) = PosixPath.isabs s.
Proof. destruct s; [congruence | reflexivity]. Qed.

Lemma endswith_sep_inv s :
  Str.endswith_sep s = true -> exists s', s = s' ++ String Str.sep "".
Proof.
  induction s as [| c t IH]; simpl; [discriminate |].
  destruct t as [| c2 t2].
  - intros H. apply Ascii.eqb_eq in H. subst. now exists "".
  - intros H. destruct (IH H) as [s' Hs']. exists (String c s'). simpl. congruence.
Qed.

Lemma join2_name path name :
  path <> "" -> valid_name name = true ->
  PosixPath.join2 path name =
  if Str.endswith_sep path then path ++ name else path ++ String Str.sep name.
Proof.
  intros Hp Hv. apply valid_name_parts in Hv. destruct Hv as (_ & Hsf & _).
  unfold PosixPath.join2. rewrite (sepfree_not_abs _ Hsf).
  destruct path; [congruence |]. simpl. reflexivity.
Qed.

Lemma absolute_rel env s :
  PosixPath.isabs s = false -> absolute env s = under_cwd env s.
Proof.
  intros H. unfold absolute, under_cwd, PosixPath.join2.
  unfold PosixPath.isabs in *. now rewrite !H.
Qed.

Lemma under_cwd_app env a b : under_cwd env (a ++ b) = under_cwd env a ++ b.
Proof.
  unfold under_cwd.
  destruct (negb (Str.nonempty (getcwd env)) || Str.endswith_sep (getcwd env)).
  - now rewrite append_assoc.
  - rewrite append_assoc. reflexivity.
Qed.

Lemma absolute_app env s x : s <> "" -> absolute env (s ++ x) = absolute env s ++ x.
Proof.
  intros Hs. destruct (PosixPath.isabs s) eqn:Habs.
  - unfold absolute. now rewrite (isabs_app s x Hs), Habs.
  - rewrite !absolute_rel; [apply under_cwd_app | assumption |].
    now rewrite (isabs_app s x Hs).
Qed.

Lemma norm_step_name acc name :
  valid_name name = true -> PosixPath.norm_step true acc name = name :: acc.
Proof.
  intros Hv. apply valid_name_parts in Hv. destruct Hv as (Hne & _ & Hdot & Hdd).
  unfold PosixPath.norm_step, PosixPath.curdir, PosixPath.pardir.
  rewrite Hdot, Hdd. destruct name; [discriminate | reflexivity].
Qed.

Lemma norm_loop_snoc_name l name :
  valid_name name = true ->
  PosixPath.norm_loop true (l ++ [name])%list = (PosixPath.norm_loop true l ++ [name])%list.
Proof.
  intros Hv. unfold PosixPath.norm_loop.
  rewrite fold_left_app. simpl. now rewrite (norm_step_name _ _ Hv).
Qed.

Lemma norm_loop_snoc_empty l :
  PosixPath.norm_loop true (l ++ [""])%list = PosixPath.norm_loop true l.
Proof. unfold PosixPath.norm_loop. now rewrite fold_left_app. Qed.

(** Joining a valid name to a path names the child of that name. *)
Lemma resolve_join2 env path name :
  path <> "" -> valid_name name = true ->
  resolve env (PosixPath.join2 path name) = (resolve env path ++ [name])%list.
Proof.
  intros Hp Hv. rewrite (join2_name _ _ Hp Hv), !resolve_norm.
  pose proof (valid_name_parts _ Hv) as (_ & Hsf & _).
  destruct (Str.endswith_sep path) eqn:He.
  - destruct (endswith_sep_inv _ He) as [p' ->].
    destruct p' as [| c p'].
    + simpl. rewrite (split_of_sepfree _ Hsf).
      unfold PosixPath.norm_loop. cbn [fold_left].
      change (PosixPath.norm_step true [] "") with (@nil string).
      now rewrite (norm_step_name _ _ Hv).
    + rewrite append_assoc. 
      rewrite !(absolute_app env (String c p')) by discriminate.
      simpl (String Str.sep "" ++ name).
      rewrite !split_app_sep, (split_of_sepfree _ Hsf).
      change (Str.split "") with [""].
      now rewrite norm_loop_snoc_name, norm_loop_snoc_empty.
  - rewrite (absolute_app env path) by assumption.
    rewrite split_app_sep, (split_of_sepfree _ Hsf).
    now apply norm_loop_snoc_name.
Qed.

Lemma stat_nonempty env t s n : stat env t s = Some n -> s <> "".
Proof. unfold stat, locate. destruct s; [discriminate | discriminate]. Qed.

Lemma stat_lookup env t s :
  s <> "" -> stat env t s = lookup (resolve env s) t.
Proof. unfold stat, locate. destruct s; [congruence | reflexivity]. Qed.

Lemma join2_nonempty path name : path <> "" -> PosixPath.join2 path name <> "".
Proof.
  unfold PosixPath.join2. intros Hp.
  destruct (Str.startswith name "/") eqn:Hn.
  - destruct name; [discriminate | discriminate].
  - destruct path as [| a p]; [congruence |].
    destruct (negb (Str.nonempty (String a p)) || Str.endswith_sep (String a p));
      discriminate.
Qed.

(** [stat] of a child of a directory. *)
Lemma stat_child env t path es name :
  stat env t path = Some (Dir es) -> valid_name name = true ->
  stat env t (PosixPath.join2 path name) = assoc name es.
Proof.
  intros Hs Hv. pose proof (stat_nonempty _ _ _ _ Hs) as Hp.
  rewrite stat_lookup by now apply join2_nonempty.
  rewrite (resolve_join2 _ _ _ Hp Hv), lookup_app.
  rewrite stat_lookup in Hs by assumption. rewrite Hs. simpl.
  now destruct (assoc name es).
Qed.

(** ** Listing a directory (C9) *)

Lemma emits_nil w : emits w [] = w.
Proof. destruct w; unfold emits; simpl. now rewrite app_nil_r. Qed.

Lemma emit_emits w e evs : emits (emit w e) evs = emits w (e :: evs).
Proof. unfold emits, emit; simpl. now rewrite <- app_assoc. Qed.

Lemma list_directory_unfold env path :
  list_directory env path =
  try_except
    (bind (os_listdir env path) (fun entries => for_each entries (list_entry env path)))
    (fun e => print ("Error listing directory: " ++ exn_str e)).
Proof. reflexivity. Qed.

Lemma list_entry_run env path es name n w :
  stat env (fs w) path = Some (Dir es) ->
  valid_name name = true ->
  assoc name es = Some n ->
  list_entry env path name w = (inr tt, emit w (render (name, n))).
Proof.
  intros Hs Hv Ha. unfold list_entry, bind, os_path_isdir, os_path_getsize, ask.
  rewrite (stat_child _ _ _ _ _ Hs Hv), Ha.
  destruct n as [data | sub]; simpl; [| reflexivity].
  now rewrite (stat_child _ _ _ _ _ Hs Hv), Ha.
Qed.

Lemma for_each_entries env path es : forall l w,
  stat env (fs w) path = Some (Dir es) ->
  (forall e, In e l -> valid_name (fst e) = true /\ assoc (fst e) es = Some (snd e)) ->
  for_each (map fst l) (list_entry env path) w = (inr tt, emits w (map render l)).
Proof.
  induction l as [| [name n] r IH]; intros w Hs Hl; simpl.
  - unfold ret. now rewrite emits_nil.
  - destruct (Hl (name, n) (or_introl eq_refl)) as [Hv Ha]. simpl in Hv, Ha.
    unfold bind at 1. rewrite (list_entry_run _ _ _ _ _ _ Hs Hv Ha).
    rewrite IH; [now rewrite emit_emits | exact Hs |].
    intros e He. apply Hl. now right.
Qed.

Lemma list_entry_safe env path entry w :
  same_machine w (snd (list_entry env path entry w)) /\
  (forall e, fst (list_entry env path entry w) = inl e -> is_Exception e = true).
Proof.
  unfold list_entry, bind, os_path_isdir, os_path_getsize, ask, print, same_machine.
  destruct (is_dir (stat env (fs w) (PosixPath.join2 path entry))); simpl.
  - repeat split; auto. discriminate.
  - destruct (stat env (fs w) (PosixPath.join2 path entry)) as [[data | sub] |];
      simpl; repeat split; auto; try discriminate.
    intros e He. inversion He; subst. unfold missing.
    destruct (locate env (PosixPath.join2 path entry)); [| reflexivity].
    destruct (through_file p (fs w)); reflexivity.
Qed.

Lemma for_each_safe env path : forall l w,
  same_machine w (snd (for_each l (list_entry env path) w)) /\
  (forall e, fst (for_each l (list_entry env path) w) = inl e -> is_Exception e = true).
Proof.
  induction l as [| x r IH]; intros w; simpl.
  - unfold ret, same_machine; simpl. repeat split; auto. discriminate.
  - unfold bind.
    pose proof (list_entry_safe env path x w) as [Hm He].
    destruct (list_entry env path x w) as [[e | []] w1]; simpl in *.
    + split; [exact Hm | exact He].
    + destruct (IH w1) as [Hm1 He1]. split; [| exact He1].
      unfold same_machine in *. intuition congruence.
Qed.

(** [list_directory] returns normally and changes nothing but the terminal. *)
Lemma list_directory_returns env path w :
  exists w', list_directory env path w = (inr tt, w') /\ same_machine w w'.
Proof.
  rewrite list_directory_unfold. unfold try_except, bind at 1, os_listdir.
  destruct (stat env (fs w) path) as [[data | es] |] eqn:Hs.
  - eexists. split; [reflexivity |]. unfold same_machine; simpl; auto.
  - pose proof (for_each_safe env path (map fst es) w) as [Hm He].
    destruct (for_each (map fst es) (list_entry env path) w) as [[e | []] w1];
      simpl in *.
    + rewrite (He e eq_refl). eexists. split; [reflexivity |].
      unfold same_machine in *; simpl; intuition.
    + eexists. split; [reflexivity | exact Hm].
  - assert (Hx : is_Exception (missing env (fs w) path) = true).
    { unfold missing. destruct (locate env path); [| reflexivity].
      destruct (through_file p (fs w)); reflexivity. }
    rewrite Hx. eexists. split; [reflexivity |].
    unfold same_machine; simpl; auto.
Qed.

(** C9: for a readable directory, [list_directory] prints one line per
    immediate entry, in the order [os.listdir] gives them: "name/" for a
    directory (nothing below it is visited) and "name - size bytes" for
    anything else; whatever the path, it returns normally and leaves the
    filesystem as it was, and when the path cannot be listed its whole
    output is one error line. *)
Theorem list_directory_renders_entries :
  forall (env : Env) (path : string) (w : World),
    (forall es,
        stat env (fs w) path = Some (Dir es) ->
        NoDup (map fst es) ->
        Forall (fun e => valid_name (fst e) = true) es ->
        os_listdir env path w = (inr (map fst es), w) /\
        list_directory env path w = (inr tt, emits w (map render es))) /\
    (exists w', list_directory env path w = (inr tt, w') /\ same_machine w w') /\
    (is_dir (stat env (fs w) path) = false ->
     exists e, list_directory env path w =
               (inr tt, emit w (Printed ("Error listing directory: " ++ exn_str e)))).
Proof.
  intros env path w. split; [| split].
  - intros es Hs Hnd Hv.
    assert (Hl : os_listdir env path w = (inr (map fst es), w))
      by (unfold os_listdir; now rewrite Hs).
    split; [exact Hl |].
    rewrite list_directory_unfold. unfold try_except, bind at 1. rewrite Hl.
    rewrite (for_each_entries env path es es w Hs); [reflexivity |].
    intros [name n] Hin. simpl. split.
    + rewrite Forall_forall in Hv. exact (Hv _ Hin).
    + now apply assoc_in_nodup.
  - apply list_directory_returns.
  - intros Hnd. rewrite list_directory_unfold. unfold try_except, bind at 1, os_listdir.
    destruct (stat env (fs w) path) as [[data | es] |] eqn:Hs.
    + eexists. reflexivity.
    + discriminate.
    + assert (Hx : is_Exception (missing env (fs w) path) = true).
      { unfold missing. destruct (locate env path); [| reflexivity].
        destruct (through_file p (fs w)); reflexivity. }
      rewrite Hx. eexists. reflexivity.
Qed.

Lemma list_directory_renders_entries_witness :
  list_directory env0 "/home/u/a" (world0 []) =
  (inr tt, emits (world0 []) [Printed "N/"; Printed "n.txt - 5 bytes"]).
Proof.
  apply (proj1 (list_directory_renders_entries env0 "/home/u/a" (world0 []))
           [("N", Dir [("x", File "1")]); ("n.txt", File "first")]).
  - reflexivity.
  - repeat constructor; simpl; intuition discriminate.
  - repeat constructor.
Defined.

(** ** The start directory (C4, C5) *)

Lemma common_len_full a : forall b,
  List.length a - PosixPath.common_len a b = 0 -> is_prefix a b = true.
Proof.
  induction a as [| x a IH]; intros b H; simpl in *; auto.
  destruct b as [| y b]; [discriminate |].
  destruct (String.eqb x y); simpl in *; [auto | discriminate].
Qed.

Lemma fields_not_abs s :
  Forall (fun b => Str.startswith b "/" = false) (PosixPath.fields s).
Proof.
  unfold PosixPath.fields. apply Forall_forall. intros x Hx.
  apply filter_In in Hx. destruct Hx as [Hx _].
  apply sepfree_not_abs.
  pose proof (split_sepfree s) as Hs. rewrite Forall_forall in Hs. auto.
Qed.

Lemma join2_keeps_start a b p :
  Str.startswith b "/" = false ->
  Str.startswith a p = true -> Str.startswith (PosixPath.join2 a b) p = true.
Proof.
  intros Hb Ha. unfold PosixPath.join2. rewrite Hb.
  destruct (negb (Str.nonempty a) || Str.endswith_sep a); now apply startswith_app.
Qed.

Lemma join_keeps_start p : forall a l,
  Forall (fun b => Str.startswith b "/" = false) l ->
  Str.startswith a p = true -> Str.startswith (PosixPath.join a l) p = true.
Proof.
  intros a l. revert a. unfold PosixPath.join.
  induction l as [| b r IH]; intros a Hl Ha; simpl; auto.
  inversion Hl; subst. apply IH; auto. now apply join2_keeps_start.
Qed.

Lemma contains_startswith p s : Str.startswith s p = true -> Str.contains p s = true.
Proof. intros H. destruct s; simpl; now rewrite H. Qed.

(** A relative path without [..] in its text comes from a path below the
    start: [relpath] climbs with one [..] per name of the start that the
    path does not share. *)
Lemma relpath_without_pardir env dir root rel :
  PosixPath.relpath (getcwd env) dir root = Some rel ->
  Str.contains ".." rel = false ->
  is_prefix (resolve env root) (resolve env dir) = true.
Proof.
  unfold PosixPath.relpath. destruct dir as [| c t]; [discriminate |].
  fold (resolve env root). fold (resolve env (String c t)).
  set (start_list := resolve env root). set (path_list := resolve env (String c t)).
  cbv zeta. intros Hrel Hc.
  destruct (List.length start_list - PosixPath.common_len start_list path_list)
    as [| k] eqn:Hk.
  - now apply common_len_full.
  - exfalso. simpl in Hrel. inversion Hrel; subst rel. clear Hrel.
    rewrite contains_startswith in Hc; [discriminate |].
    apply join_keeps_start; [| reflexivity].
    apply Forall_app. split.
    + apply Forall_forall. intros x Hx. apply repeat_spec in Hx. now subst.
    + pose proof (fields_not_abs (PosixPath.abspath (getcwd env) (String c t))) as Hf.
      fold (resolve env (String c t)) in Hf. fold path_list in Hf.
      rewrite <- (firstn_skipn (PosixPath.common_len start_list path_list) path_list) in Hf.
      apply Forall_app in Hf. tauto.
Qed.

Lemma path_rejected_false env root dir w :
  path_rejected env root dir w = (inr false, w) ->
  PosixPath.isabs dir = true /\
  exists rel, PosixPath.relpath (getcwd env) dir root = Some rel /\
              Str.contains ".." rel = false.
Proof.
  unfold path_rejected, os_path_relpath.
  destruct (PosixPath.isabs dir); simpl; [| discriminate].
  unfold bind. intros H.
  destruct (PosixPath.relpath (getcwd env) dir root) as [rel |]; simpl in H.
  - split; [reflexivity |]. exists rel. split; [reflexivity |].
    unfold ret in H. congruence.
  - discriminate.
Qed.

(** C4: "/root/sub" passes the test against the root "/root";
    "/root/../etc" and every path that is not absolute ("relative/dir") are
    rejected, and so against the root of the program; when the start
    directory is rejected, [main] prints one line and exits with status 1
    with no menu shown and no input read. *)
Theorem start_directory_validation :
  forall (env : Env) (w : World),
    path_rejected env "/root" "/root/sub" w = (inr false, w) /\
    path_rejected env "/root" "/root/../etc" w = (inr true, w) /\
    path_rejected env "/root" "relative/dir" w = (inr true, w) /\
    path_rejected env ROOT "/Users/harrisonryan/sub" w = (inr false, w) /\
    path_rejected env ROOT "/Users/harrisonryan/../etc" w = (inr true, w) /\
    (forall root dir,
        PosixPath.isabs dir = false -> path_rejected env root dir w = (inr true, w)) /\
    (forall a log w1,
        setup_logging env w = (inr log, w1) ->
        path_rejected env ROOT (start_dir a) w1 = (inr true, w1) ->
        main env a w =
          Some (inl (SystemExit 1), emit w1 (Printed "Invalid directory path.")) /\
        exit_status (inl (SystemExit 1)) = 1).
Proof.
  intros env w. repeat split; try reflexivity.
  - intros root dir H. unfold path_rejected. now rewrite H.
  - unfold main, startup, bind. rewrite H, H0. reflexivity.
Qed.

Lemma start_directory_validation_witness :
  main env0 {| m := admin; d := Some "relative/dir" |} (world0 ["1"; "0"]) =
  Some (inl (SystemExit 1), emit (world0 ["1"; "0"]) (Printed "Invalid directory path.")).
Proof.
  apply (proj2 (proj2 (proj2 (proj2 (proj2 (proj2
           (start_directory_validation env0 (world0 ["1"; "0"])))))))
           {| m := admin; d := Some "relative/dir" |}
           "/home/u/Python_Log/system_log.txt" (world0 ["1"; "0"]));
    reflexivity.
Defined.

(** C5, as the code has it: a start directory that passes the test lies
    inside the root, name by name; [relpath] normalises both paths, so an
    absolute path rooted elsewhere comes out with a leading [..] and is
    rejected. *)
Theorem accepted_start_directory_is_inside_root :
  forall (env : Env) (root dir : string) (w : World),
    path_rejected env root dir w = (inr false, w) ->
    PosixPath.isabs dir = true /\ inside_root env root dir = true.
Proof.
  intros env root dir w H.
  destruct (path_rejected_false _ _ _ _ H) as [Habs [rel [Hrel Hc]]].
  split; [exact Habs |]. unfold inside_root.
  now apply (relpath_without_pardir env dir root rel).
Qed.

Lemma accepted_start_directory_is_inside_root_witness :
  PosixPath.isabs DEFAULT_DIR = true /\ inside_root env0 ROOT DEFAULT_DIR = true.
Proof.
  apply (accepted_start_directory_is_inside_root env0 ROOT DEFAULT_DIR (world0 [])).
  reflexivity.
Defined.

(** C5 as stated fails: no absolute path outside the root passes the test. *)
Lemma no_outside_path_is_accepted :
  ~ exists dir : string,
      PosixPath.isabs dir = true /\
      inside_root env0 ROOT dir = false /\
      path_rejected env0 ROOT dir (world0 []) = (inr false, world0 []).
Proof.
  intros [dir [_ [Hout Hacc]]].
  destruct (path_rejected_false _ _ _ _ Hacc) as [_ [rel [Hrel Hc]]].
  unfold inside_root in Hout.
  rewrite (relpath_without_pardir env0 dir ROOT rel Hrel Hc) in Hout.
  discriminate.
Qed.

(** ** Copying onto an existing destination (C7) *)

Lemma makedirs_exists env t s n :
  stat env t s = Some n -> makedirs env t s = inl (FileExistsError s).
Proof.
  intros H. unfold makedirs. unfold stat in H.
  destruct (locate env s) as [p |]; [| discriminate].
  now rewrite (mkdirs_exists _ _ _ H), H.
Qed.

Lemma copytree_onto_existing env src dst w es n :
  stat env (fs w) src = Some (Dir es) ->
  stat env (fs w) dst = Some n ->
  shutil_copytree env src dst w = (inl (FileExistsError dst), w).
Proof.
  intros Hs Hd. unfold shutil_copytree. rewrite Hs.
  unfold bind, os_makedirs, syscall. now rewrite (makedirs_exists _ _ _ _ Hd).
Qed.

(** C7: copying a directory to a destination that exists fails inside
    [copy_item]: the call returns normally, its only effect is the line
    "Error copying item: ...", and the filesystem, with it the destination
    and everything below it, is left as it was. *)
Theorem copy_directory_onto_existing_fails :
  forall (env : Env) (source destination : string) (w : World),
    is_dir (stat env (fs w) source) = true ->
    is_some (stat env (fs w) destination) = true ->
    copy_item env source destination w =
    (inr tt,
     emit w (Printed ("Error copying item: "
                      ++ exn_str (FileExistsError destination)))).
Proof.
  intros env source destination w Hs Hd.
  destruct (stat env (fs w) source) as [[data | es] |] eqn:Hsrc; try discriminate.
  destruct (stat env (fs w) destination) as [n |] eqn:Hdst; [| discriminate].
  unfold copy_item, try_except, bind at 1, os_path_isdir, ask.
  rewrite Hsrc. cbn [is_dir]. unfold bind at 1.
  now rewrite (copytree_onto_existing _ _ _ _ _ _ Hsrc Hdst).
Qed.

Lemma copy_directory_onto_existing_fails_witness :
  copy_item env0 "/home/u/a" "/home/u/b" (world0 []) =
  (inr tt,
   emit (world0 [])
     (Printed "Error copying item: [Errno 17] File exists: '/home/u/b'")).
Proof.
  apply (copy_directory_onto_existing_fails env0 "/home/u/a" "/home/u/b" (world0 []));
    reflexivity.
Defined.

(** ** What every operation of the program respects *)

Lemma tame_ret {A} (a : A) : tame (ret a).
Proof. intros w. simpl. repeat split; auto. discriminate. Qed.

Lemma tame_raise {A} e : is_Exception e = true -> tame (@raise A e).
Proof. intros He w. simpl. repeat split; auto. congruence. Qed.

Lemma tame_bind {A B} (c : M A) (k : A -> M B) :
  tame c -> (forall a, tame (k a)) -> tame (bind c k).
Proof.
  intros Hc Hk w. unfold bind. destruct (Hc w) as (H1 & H2 & H3).
  destruct (c w) as [[e | a] w1]; simpl in *.
  - repeat split; auto. intros e' He'. inversion He'; subst. auto.
  - destruct (Hk a w1) as (K1 & K2 & K3). repeat split; auto. lia.
Qed.

Lemma tame_try_except {A} (body : M A) handler :
  tame body -> (forall e, tame (handler e)) -> tame (try_except body handler).
Proof.
  intros Hb Hh w. unfold try_except. destruct (Hb w) as (H1 & H2 & H3).
  destruct (body w) as [[e | a] w1]; simpl in *.
  - rewrite (H3 e eq_refl). destruct (Hh e w1) as (K1 & K2 & K3).
    repeat split; auto. lia.
  - repeat split; auto.
Qed.

Lemma tame_try_except_OSError {A} (body handler : M A) :
  tame body -> tame handler -> tame (try_except_OSError body handler).
Proof.
  intros Hb Hh w. unfold try_except_OSError. destruct (Hb w) as (H1 & H2 & H3).
  destruct (body w) as [[e | a] w1]; simpl in *.
  - destruct (is_OSError e).
    + destruct (Hh w1) as (K1 & K2 & K3). repeat split; auto. lia.
    + repeat split; auto.
  - repeat split; auto.
Qed.

Lemma tame_print line : tame (print line).
Proof.
  intros w. unfold print, no_cd. simpl. repeat split; auto; [| discriminate].
  intros H Hin. apply in_app_or in Hin. destruct Hin as [Hin | [Hin | []]]; auto.
  discriminate.
Qed.

Lemma tame_input text : Prompted text <> cd_prompt -> tame (input text).
Proof.
  intros Hne w. unfold input, no_cd.
  assert (Hout : ~ In cd_prompt (stdout w) -> ~ In cd_prompt (stdout w ++ [Prompted text])%list).
  { intros H Hin. apply in_app_or in Hin. destruct Hin as [Hin | [Hin | []]]; auto. }
  destruct (stdin w) as [| l rest] eqn:Hin; simpl; rewrite ?Hin; simpl.
  - repeat split; auto.
    + rewrite Hin. auto.
    + intros e He. now inversion He.
  - repeat split; auto; try discriminate.
Qed.

Lemma tame_ask {A} (f : node -> A) : tame (ask f).
Proof. intros w. simpl. repeat split; auto. discriminate. Qed.

Lemma tame_syscall f :
  (forall t e, f t = inl e -> is_Exception e = true) -> tame (syscall f).
Proof.
  intros Hf w. unfold syscall. destruct (f (fs w)) as [e | t] eqn:Hft; simpl.
  - repeat split; auto. intros e' He'. inversion He'; subst. eauto.
  - repeat split; auto. discriminate.
Qed.

Lemma missing_is_Exception env t s : is_Exception (missing env t s) = true.
Proof.
  unfold missing. destruct (locate env s); [| reflexivity].
  destruct (through_file p t); reflexivity.
Qed.

(** Closes [is_Exception e = true] for the error of a modelled system call. *)
Ltac exception_of H :=
  repeat match type of H with
         | context [match ?x with _ => _ end] => destruct x
         | context [if ?b then _ else _] => destruct b
         end;
  try discriminate; inversion H; subst;
  auto using missing_is_Exception.

(** Closes the three parts of [tame] once the computation has been run. *)
Ltac tame_leaf :=
  simpl; repeat split; auto; try discriminate;
  try (let e := fresh "e" in let He := fresh "He" in
       intros e He; inversion He; subst; auto using missing_is_Exception).

Lemma makedirs_raises env t s e : makedirs env t s = inl e -> is_Exception e = true.
Proof. unfold makedirs. intros H. exception_of H. Qed.

Lemma write_file_raises env t dst data e :
  write_file env t dst data = inl e -> is_Exception e = true.
Proof. unfold write_file. intros H. exception_of H. Qed.

Lemma copyfile_raises env t src dst e :
  copyfile env t src dst = inl e -> is_Exception e = true.
Proof.
  unfold copyfile. intros H.
  destruct (samefile env t src dst); [now inversion H |].
  destruct (stat env t src) as [[data | es] |].
  - now apply write_file_raises in H.
  - now inversion H.
  - inversion H. apply missing_is_Exception.
Qed.

Lemma remove_raises env t s e : remove env t s = inl e -> is_Exception e = true.
Proof. unfold remove. intros H. exception_of H. Qed.

Lemma rmtree_raises env t s e : rmtree env t s = inl e -> is_Exception e = true.
Proof. unfold rmtree. intros H. exception_of H. Qed.

Lemma rename_raises env t src dst e :
  rename env t src dst = inl e -> is_Exception e = true.
Proof. unfold rename. intros H. exception_of H. Qed.

Lemma tame_os_path_exists env s : tame (os_path_exists env s).
Proof. apply tame_ask. Qed.

Lemma tame_os_path_isdir env s : tame (os_path_isdir env s).
Proof. apply tame_ask. Qed.

Lemma tame_os_makedirs env s : tame (os_makedirs env s).
Proof. apply tame_syscall. intros t e. apply makedirs_raises. Qed.

Lemma tame_os_remove env s : tame (os_remove env s).
Proof. apply tame_syscall. intros t e. apply remove_raises. Qed.

Lemma tame_shutil_rmtree env s : tame (shutil_rmtree env s).
Proof. apply tame_syscall. intros t e. apply rmtree_raises. Qed.

Lemma tame_os_rename env src dst : tame (os_rename env src dst).
Proof. apply tame_syscall. intros t e. apply rename_raises. Qed.

Lemma tame_os_listdir env s : tame (os_listdir env s).
Proof.
  intros w. unfold os_listdir.
  destruct (stat env (fs w) s) as [[data | es] |]; simpl;
    repeat split; auto; try discriminate;
    intros e He; inversion He; auto using missing_is_Exception.
Qed.

Lemma tame_os_path_getsize env s : tame (os_path_getsize env s).
Proof.
  intros w. unfold os_path_getsize.
  destruct (stat env (fs w) s) as [[data | es] |]; simpl;
    repeat split; auto; try discriminate;
    intros e He; inversion He; auto using missing_is_Exception.
Qed.

Lemma tame_datetime_now env : tame (datetime_now env).
Proof. intros w. simpl. repeat split; auto. discriminate. Qed.

Lemma tame_open_append env s : tame (open_append env s).
Proof.
  intros w. unfold open_append.
  destruct (locate env s) as [p |]; [| tame_leaf].
  destruct (lookup p (fs w)) as [[data | es] |]; [tame_leaf | tame_leaf |].
  destruct (put p (File "") (fs w)); tame_leaf.
Qed.

Lemma tame_file_write f text : tame (file_write f text).
Proof.
  apply tame_syscall. intros t e H. exception_of H.
Qed.

Lemma tame_shutil_copy env src dst : tame (shutil_copy env src dst).
Proof.
  unfold shutil_copy. apply tame_bind; [apply tame_ask |].
  intros b. apply tame_syscall. intros t e. apply copyfile_raises.
Qed.

Lemma tame_shutil_copytree env src dst : tame (shutil_copytree env src dst).
Proof.
  intros w. unfold shutil_copytree.
  destruct (stat env (fs w) src) as [[data | es] |]; [tame_leaf | | tame_leaf].
  revert w. apply tame_bind; [apply tame_os_makedirs |]. intros _.
  match goal with |- tame (if ?b then _ else _) => destruct b end.
  - now apply tame_raise.
  - apply tame_syscall. intros t e H. exception_of H.
Qed.

Create HintDb tame.
#[local] Hint Resolve tame_ret tame_print tame_ask tame_os_path_exists
  tame_os_path_isdir tame_os_makedirs tame_os_remove tame_shutil_rmtree
  tame_os_rename tame_os_listdir tame_os_path_getsize tame_datetime_now
  tame_open_append tame_file_write tame_shutil_copy tame_shutil_copytree : tame.

(** Takes a program of the monad apart, down to its system calls. *)
Ltac tame_tac :=
  repeat first
    [ solve [auto with tame]
    | apply tame_input; discriminate
    | apply tame_raise; reflexivity
    | apply tame_try_except; [| intros ?]
    | apply tame_try_except_OSError
    | apply tame_bind; [| intros ?]
    | match goal with
      | |- tame (if ?b then _ else _) => destruct b
      | |- tame (let _ := _ in _) => cbv zeta
      end ].

Lemma tame_shutil_move env src dst : tame (shutil_move env src dst).
Proof. unfold shutil_move. tame_tac. Qed.

Lemma tame_for_each {A} (body : A -> M unit) l :
  (forall x, tame (body x)) -> tame (for_each l body).
Proof. intros Hb. induction l; simpl; tame_tac. Qed.

Lemma tame_list_directory env path : tame (list_directory env path).
Proof.
  unfold list_directory. tame_tac. apply tame_for_each. intros x. tame_tac.
Qed.

Lemma tame_log_action env action log : tame (log_action env action log).
Proof. unfold log_action. tame_tac. Qed.

Lemma tame_copy_item env s d : tame (copy_item env s d).
Proof. unfold copy_item. tame_tac. Qed.

Lemma tame_move_item env s d : tame (move_item env s d).
Proof. unfold move_item. tame_tac; apply tame_shutil_move. Qed.

Lemma tame_delete_item env s d : tame (delete_item env s d).
Proof. unfold delete_item. tame_tac. Qed.

Lemma tame_show_menu a : tame (show_menu a).
Proof. unfold show_menu. tame_tac. Qed.

#[local] Hint Resolve tame_list_directory tame_log_action tame_copy_item
  tame_move_item tame_delete_item tame_show_menu : tame.

Lemma tame_dispatch env st choice : tame (dispatch env st choice).
Proof. unfold dispatch. tame_tac. Qed.

(** ** The loop and its locals (C10) *)

Lemma bind_inr_inv {A B} (c : M A) (k : A -> M B) w b w' :
  bind c k w = (inr b, w') ->
  exists a w1, c w = (inr a, w1) /\ k a w1 = (inr b, w').
Proof.
  unfold bind. destruct (c w) as [[e | a] w1]; [discriminate | eauto].
Qed.

(** Takes a successful run of a chain of binds apart. *)
Ltac bind_inv H :=
  repeat match type of H with
         | bind _ _ _ = (inr _, _) =>
             let a := fresh "a" in
             let w1 := fresh "w" in
             let H1 := fresh "Hstep" in
             apply bind_inr_inv in H; destruct H as (a & w1 & H1 & H)
         end.

Lemma dispatch_locals env st choice w st' w' :
  dispatch env st choice w = (inr (Some st'), w') -> st' = st.
Proof.
  unfold dispatch. intros H.
  repeat match type of H with
         | (if ?b then _ else _) _ = _ => destruct b
         end;
    bind_inv H; unfold ret in H; congruence.
Qed.

Lemma iteration_locals env st w st' w' :
  iteration env st w = (inr (Some st'), w') -> st' = st.
Proof.
  unfold iteration. intros H. bind_inv H. now apply dispatch_locals in H.
Qed.

Lemma tame_iteration env st : tame (iteration env st).
Proof. unfold iteration. tame_tac. apply tame_dispatch. Qed.

Lemma input_consumes text w l w' :
  input text w = (inr l, w') -> List.length (stdin w') < List.length (stdin w).
Proof.
  unfold input. simpl. destruct (stdin w) as [| x rest]; [discriminate |].
  intros H. inversion H; subst. simpl. lia.
Qed.

Lemma iteration_consumes env st w r w' :
  iteration env st w = (inr r, w') ->
  List.length (stdin w') < List.length (stdin w).
Proof.
  unfold iteration. intros H. bind_inv H.
  pose proof (tame_show_menu (args st) w) as (_ & Hm & _). rewrite Hstep in Hm.
  apply input_consumes in Hstep0.
  pose proof (tame_dispatch env st a0 w1) as (_ & Hd & _). rewrite H in Hd.
  simpl in *. lia.
Qed.

(** Enough fuel: the loop ends, by [break] or by an exception (at the
    latest [EOFError] when the input runs out). *)
Lemma loop_total env : forall fuel st w,
  List.length (stdin w) < fuel -> exists r, loop env fuel st w = Some r.
Proof.
  induction fuel as [| fuel IH]; intros st w Hlt; [lia |].
  simpl. destruct (iteration env st w) as [[e | [st' |]] w'] eqn:Hit; eauto.
  apply IH. apply iteration_consumes in Hit. lia.
Qed.

Lemma loop_no_cd env : forall fuel st w r w',
  loop env fuel st w = Some (r, w') -> no_cd w -> no_cd w'.
Proof.
  induction fuel as [| fuel IH]; intros st w r w' H Hw; [discriminate |].
  simpl in H. pose proof (tame_iteration env st w) as (Hq & _).
  destruct (iteration env st w) as [[e | [st' |]] w1]; simpl in Hq.
  - inversion H; subst. auto.
  - eapply IH; eauto.
  - inversion H; subst. auto.
Qed.

Lemma turns_locals env : forall fuel st w,
  Forall (fun s => s = st) (turns env fuel st w).
Proof.
  induction fuel as [| fuel IH]; intros st w; simpl; constructor; auto.
  destruct (iteration env st w) as [[e | [st' |]] w1] eqn:Hit; auto.
  apply iteration_locals in Hit. subst. apply IH.
Qed.

Lemma tame_setup_logging env : tame (setup_logging env).
Proof. unfold setup_logging. tame_tac. Qed.

Lemma tame_path_rejected env root dir : tame (path_rejected env root dir).
Proof.
  unfold path_rejected, os_path_relpath. tame_tac.
  destruct (PosixPath.relpath (getcwd env) dir root); tame_tac.
Qed.

Lemma startup_locals env a w st0 w0 :
  startup env a w = (inr st0, w0) ->
  st0 = {| args := a; log_file := log_file st0; current_dir := start_dir a |}.
Proof.
  unfold startup. intros H. bind_inv H. unfold ret in H. inversion H; subst.
  reflexivity.
Qed.

Lemma startup_no_cd env a w : no_cd w -> no_cd (snd (startup env a w)).
Proof.
  intros Hw. unfold startup, bind.
  pose proof (tame_setup_logging env w) as (H1 & _).
  destruct (setup_logging env w) as [[e | log] w1]; simpl in *; auto.
  pose proof (tame_path_rejected env ROOT (start_dir a) w1) as (H2 & _).
  destruct (path_rejected env ROOT (start_dir a) w1) as [[e | bad] w2];
    simpl in *; auto.
  destruct bad; simpl; auto.
  apply (proj1 (tame_print "Invalid directory path." w2)). auto.
Qed.

(** C10: the locals a turn of the loop hands to the next are the ones it
    started with, so every turn runs with the start directory fixed before
    the loop (from [-d], or the default) and choice 1 lists that directory;
    [main] always ends, and its terminal never shows the prompt
    [change_directory] opens with: the dispatcher does not reach it. *)
Theorem current_directory_is_fixed :
  forall (env : Env) (a : Args) (w : World),
    (forall st w1 st' w2, iteration env st w1 = (inr (Some st'), w2) -> st' = st) /\
    (forall st0 w0,
        startup env a w = (inr st0, w0) ->
        current_dir st0 = start_dir a /\
        forall fuel,
          Forall (fun st => current_dir st = start_dir a) (turns env fuel st0 w0)) /\
    (forall st w1,
        dispatch env st "1" w1 =
        bind (list_directory env (current_dir st)) (fun _ => ret (Some st)) w1) /\
    (exists r, main env a w = Some r) /\
    (forall r w', main env a w = Some (r, w') -> no_cd w -> no_cd w') /\
    (forall cp w1, In cd_prompt (stdout (snd (change_directory env cp w1)))).
Proof.
  intros env a w. repeat split.
  - intros st w1 st' w2. apply iteration_locals.
  - apply startup_locals in H. rewrite H. reflexivity.
  - intros fuel. pose proof (startup_locals _ _ _ _ _ H) as Hst.
    pose proof (turns_locals env fuel st0 w0) as Ht.
    rewrite Forall_forall in *. intros st Hin. rewrite (Ht st Hin), Hst. reflexivity.
  - unfold main. destruct (startup env a w) as [[e | st] w0]; eauto.
    apply loop_total. lia.
  - intros r w' H Hw. unfold main in H.
    pose proof (startup_no_cd env a w Hw) as Hs.
    destruct (startup env a w) as [[e | st] w0]; simpl in Hs.
    + inversion H; subst. assumption.
    + eapply loop_no_cd; eauto.
  - intros cp w1. unfold change_directory, bind, input. simpl.
    assert (Hin : In cd_prompt (stdout w1 ++ [cd_prompt])%list)
      by (apply in_or_app; right; now left).
    destruct (stdin w1) as [| l rest]; simpl; [exact Hin |].
    unfold os_path_isdir, ask. simpl.
    match goal with |- context [if ?b then _ else _] => destruct b end; simpl.
    + unfold print, ret. simpl. apply in_or_app. now left.
    + exact Hin.
Qed.

Lemma current_directory_is_fixed_witness :
  Forall (fun st => current_dir st = DEFAULT_DIR)
         (turns env0 3
            {| args := {| m := admin; d := None |};
               log_file := "/home/u/Python_Log/system_log.txt";
               current_dir := DEFAULT_DIR |}
            (world0 ["1"; "0"])).
Proof.
  destruct (current_directory_is_fixed env0 {| m := admin; d := None |}
              (world0 ["1"; "0"])) as (_ & H & _).
  destruct (H {| args := {| m := admin; d := None |};
                 log_file := "/home/u/Python_Log/system_log.txt";
                 current_dir := DEFAULT_DIR |}
              (world0 ["1"; "0"]) eq_refl) as [_ Hturns].
  exact (Hturns 3).
Defined.

(** ** Delete with backup (C2, C6) *)

Lemma is_prefix_app p : forall q, is_prefix p q = true -> exists r, q = (p ++ r)%list.
Proof.
  induction p as [| c cs IH]; intros q H; simpl in *; [eauto |].
  destruct q as [| k ks]; [discriminate |].
  apply andb_true_iff in H. destruct H as [Hc H].
  apply String.eqb_eq in Hc. subst. destruct (IH _ H) as [r ->]. eauto.
Qed.

(** Nothing lies below a regular file. *)
Lemma file_not_above p q t data n :
  lookup p t = Some (File data) -> lookup q t = Some n -> p <> q ->
  is_prefix p q = false.
Proof.
  intros Hp Hq Hne. destruct (is_prefix p q) eqn:Hpre; [| reflexivity].
  exfalso. destruct (is_prefix_app _ _ Hpre) as [r ->].
  rewrite lookup_app, Hp in Hq. destruct r as [| k r].
  - apply Hne. now rewrite app_nil_r.
  - discriminate.
Qed.

Lemma files_apart p q t d1 d2 :
  lookup p t = Some (File d1) -> lookup q t = Some (File d2) -> p <> q -> apart p q.
Proof.
  intros Hp Hq Hne. split.
  - eapply file_not_above; eauto.
  - eapply file_not_above; eauto.
Qed.

Lemma apart_sym p q : apart p q -> apart q p.
Proof. unfold apart. tauto. Qed.

Lemma apart_nonroot p q : apart p q -> p <> [].
Proof. intros [H _] ->. discriminate. Qed.

Lemma path_eqb_neq a b : a <> b -> path_eqb a b = false.
Proof.
  intros H. destruct (path_eqb a b) eqn:E; [| reflexivity].
  apply path_eqb_eq in E. contradiction.
Qed.

(** Deleting a regular file whose backup target holds an earlier regular
    file: the target is overwritten and the file is removed. *)
Lemma delete_file_over_backup env item backup_dir w data old :
  is_some (stat env (fs w) backup_dir) = true ->
  stat env (fs w) item = Some (File data) ->
  stat env (fs w) (backup_target item backup_dir) = Some (File old) ->
  resolve env item <> resolve env (backup_target item backup_dir) ->
  exists t',
    delete_item env item backup_dir w =
    (inr tt, emit (with_fs w t')
               (Printed (PosixPath.basename item ++ " was deleted and backed up."))) /\
    stat env t' (backup_target item backup_dir) = Some (File data) /\
    stat env t' item = None.
Proof.
  intros Hb Hi Ht Hne.
  pose proof (stat_nonempty _ _ _ _ Hi) as Hi0.
  pose proof (stat_nonempty _ _ _ _ Ht) as Ht0.
  set (target := backup_target item backup_dir) in *.
  set (ps := resolve env item) in *. set (pd := resolve env target) in *.
  assert (Hlp : lookup ps (fs w) = Some (File data))
    by (unfold ps; now rewrite <- stat_lookup).
  assert (Hld : lookup pd (fs w) = Some (File old))
    by (unfold pd; now rewrite <- stat_lookup).
  pose proof (files_apart _ _ _ _ _ Hlp Hld Hne) as Hap.
  destruct (put_succeeds pd (File data) _ _ Hld) as [t1 Hput].
  assert (Hlp1 : lookup ps t1 = Some (File data))
    by (rewrite (put_lookup_other _ _ _ _ _ (apart_sym _ _ Hap) Hput); exact Hlp).
  destruct (del_succeeds ps t1 _ (apart_nonroot _ _ Hap) Hlp1) as [t2 Hdel].
  exists t2. split; [| split].
  - unfold delete_item, try_except.
    unfold bind at 1. unfold os_path_exists at 1, ask. rewrite Hb. cbn [negb].
    unfold bind at 1. unfold ret at 1.
    unfold bind at 1. unfold os_path_isdir at 1, ask. rewrite Hi. cbn [is_dir].
    unfold bind at 1. unfold shutil_copy, bind at 1, os_path_isdir at 1, ask.
    fold (backup_target item backup_dir). fold target.
    rewrite Ht. cbn [is_dir]. unfold syscall, copyfile, samefile.
    rewrite Hi, Ht. fold ps. fold pd. rewrite (path_eqb_neq _ _ Hne).
    cbn [is_some andb].
    unfold write_file. unfold locate.
    destruct target as [| tc tt0] eqn:Htarget; [congruence |].
    fold pd. rewrite Hld, Hput.
    unfold bind at 1. unfold os_path_isdir at 1, ask.
    cbn [fs with_fs]. rewrite (stat_lookup env t1 item Hi0). fold ps.
    rewrite Hlp1. cbn [is_dir].
    unfold bind at 1. unfold os_remove, syscall, remove. cbn [fs with_fs].
    rewrite (stat_lookup env t1 item Hi0). fold ps. rewrite Hlp1, Hdel.
    reflexivity.
  - rewrite (stat_lookup env t2 target Ht0). fold pd.
    rewrite (del_lookup_other _ _ _ _ Hap Hdel).
    apply (put_lookup_same _ _ _ _ Hput).
  - rewrite (stat_lookup env t2 item Hi0). fold ps.
    apply (del_lookup_same _ _ _ Hdel).
Qed.

(** Deleting a directory whose backup target exists fails before anything
    is removed. *)
Lemma delete_directory_over_backup env item backup_dir w n :
  is_some (stat env (fs w) backup_dir) = true ->
  is_dir (stat env (fs w) item) = true ->
  stat env (fs w) (backup_target item backup_dir) = Some n ->
  delete_item env item backup_dir w =
  (inr tt,
   emit w (Printed ("Error deleting item: "
                    ++ exn_str (FileExistsError (backup_target item backup_dir))))).
Proof.
  intros Hb Hi Ht.
  destruct (stat env (fs w) item) as [[data | es] |] eqn:Hitem; try discriminate.
  unfold delete_item, try_except.
  unfold bind at 1. unfold os_path_exists at 1, ask. rewrite Hb. cbn [negb].
  unfold bind at 1. unfold ret at 1.
  unfold bind at 1. unfold os_path_isdir at 1, ask. rewrite Hitem. cbn [is_dir].
  unfold bind at 1. fold (backup_target item backup_dir).
  now rewrite (copytree_onto_existing _ _ _ _ _ _ Hitem Ht).
Qed.

(** [mkdirs] removes nothing. *)
Lemma mkdirs_grown p : forall t t', mkdirs p t = Some t' -> grown t t'.
Proof.
  induction p as [| c cs IH]; intros t t' H q Hq; simpl in H; [discriminate |].
  destruct t as [fd | es]; [discriminate |].
  destruct q as [| k ks].
  - reflexivity.
  - simpl in Hq. destruct (assoc c es) as [m0 |] eqn:Hm.
    + destruct (mkdirs cs m0) as [m' |] eqn:Hmk; [| discriminate].
      inversion H; subst. simpl.
      destruct (String.eqb_spec k c) as [-> | Hne].
      * rewrite assoc_set_same. rewrite Hm in Hq. now apply (IH m0 m' Hmk).
      * now rewrite assoc_set_other.
    + inversion H; subst. simpl.
      destruct (String.eqb_spec k c) as [-> | Hne].
      * now rewrite Hm in Hq.
      * now rewrite assoc_set_other.
Qed.

Lemma grown_refl t : grown t t.
Proof. intros q H. exact H. Qed.

Lemma grown_trans t1 t2 t3 : grown t1 t2 -> grown t2 t3 -> grown t1 t3.
Proof. intros H12 H23 q H. auto. Qed.

Lemma os_makedirs_grown env s w r w' :
  os_makedirs env s w = (r, w') -> grown (fs w) (fs w').
Proof.
  unfold os_makedirs, syscall, makedirs.
  destruct (locate env s) as [p |].
  - destruct (mkdirs p (fs w)) as [t' |] eqn:Hmk.
    + intros H. inversion H; subst. simpl. now apply (mkdirs_grown p).
    + destruct (is_some (lookup p (fs w))); intros H; inversion H; subst;
        apply grown_refl.
  - intros H. inversion H; subst. apply grown_refl.
Qed.

Lemma tame_backup_step env item backup_dir : tame (backup_step env item backup_dir).
Proof. unfold backup_step. tame_tac. Qed.

(** When the backup copy of [delete_item] raises, the removal is not run:
    the item is still where it was. *)
Lemma failed_backup_removes_nothing env item backup_dir w e w1 :
  backup_step env item backup_dir w = (inl e, w1) ->
  delete_item env item backup_dir w =
    (inr tt, emit w1 (Printed ("Error deleting item: " ++ exn_str e))) /\
  grown (fs w) (fs w1).
Proof.
  intros H. split.
  - pose proof (tame_backup_step env item backup_dir w) as (_ & _ & He).
    rewrite H in He. specialize (He e eq_refl).
    revert H. unfold backup_step, delete_item, try_except, backup_target, bind.
    destruct (os_path_exists env backup_dir w) as [[e0 | present] w0].
    + intros H. inversion H; subst. now rewrite He.
    + destruct ((if negb present then os_makedirs env backup_dir else ret tt) w0)
        as [[e1 | []] w2].
      * intros H. inversion H; subst. now rewrite He.
      * destruct (os_path_isdir env item w2) as [[e2 | is_directory] w3].
        -- intros H. inversion H; subst. now rewrite He.
        -- destruct ((if is_directory
                      then shutil_copytree env item
                             (PosixPath.join2 backup_dir
                                ("deleted_" ++ PosixPath.basename item))
                      else shutil_copy env item
                             (PosixPath.join2 backup_dir
                                ("deleted_" ++ PosixPath.basename item))) w3)
             as [[e3 | []] w4].
           ++ intros H. inversion H; subst. now rewrite He.
           ++ discriminate.
  - revert H. unfold backup_step, bind, os_path_exists, os_path_isdir, ask.
    destruct ((if negb (is_some (stat env (fs w) backup_dir))
               then os_makedirs env backup_dir else ret tt) w)
      as [[e1 | []] w2] eqn:Hmk.
    + intros H. inversion H; subst.
      destruct (negb (is_some (stat env (fs w) backup_dir))).
      * now apply os_makedirs_grown in Hmk.
      * inversion Hmk.
    + assert (Hg : grown (fs w) (fs w2)).
      { destruct (negb (is_some (stat env (fs w) backup_dir))).
        - now apply os_makedirs_grown in Hmk.
        - inversion Hmk; subst. apply grown_refl. }
      destruct (is_dir (stat env (fs w2) item)).
      * unfold shutil_copytree.
        destruct (stat env (fs w2) item) as [[data | es] |].
        -- intros H. inversion H; subst. exact Hg.
        -- unfold bind.
           destruct (os_makedirs env (backup_target item backup_dir) w2)
             as [[e2 | []] w3] eqn:Hmk2.
           ++ intros H. inversion H; subst.
              apply (grown_trans _ _ _ Hg). now apply os_makedirs_grown in Hmk2.
           ++ apply os_makedirs_grown in Hmk2.
              match goal with |- context [if ?b then _ else _] => destruct b end.
              ** intros H. inversion H; subst. now apply (grown_trans _ _ _ Hg).
              ** unfold syscall.
                 match goal with |- context [match ?x with _ => _ end] => destruct x end;
                   intros H; inversion H; subst. now apply (grown_trans _ _ _ Hg).
        -- intros H. inversion H; subst. exact Hg.
      * unfold shutil_copy, bind, os_path_isdir, ask, syscall.
        match goal with |- context [copyfile ?a ?b ?c ?d] => destruct (copyfile a b c d) end;
          intros H; inversion H; subst. exact Hg.
Qed.

(** C6, as the code has it: items of the same name share one backup target
    [deleted_N].  With an earlier backup at the target, deleting a regular
    file named N overwrites it with the new content and removes the file;
    deleting a directory named N fails with "File exists", removes nothing
    and leaves the earlier backup as it was. *)
Theorem same_name_backups_collide :
  forall (env : Env) (item backup_dir : string) (w : World) (earlier : node),
    is_some (stat env (fs w) backup_dir) = true ->
    stat env (fs w) (backup_target item backup_dir) = Some earlier ->
    (forall other,
        PosixPath.basename other = PosixPath.basename item ->
        backup_target other backup_dir = backup_target item backup_dir) /\
    (forall data old,
        stat env (fs w) item = Some (File data) ->
        earlier = File old ->
        resolve env item <> resolve env (backup_target item backup_dir) ->
        exists t',
          delete_item env item backup_dir w =
          (inr tt, emit (with_fs w t')
                     (Printed (PosixPath.basename item
                               ++ " was deleted and backed up."))) /\
          stat env t' (backup_target item backup_dir) = Some (File data) /\
          stat env t' item = None) /\
    (is_dir (stat env (fs w) item) = true ->
     delete_item env item backup_dir w =
     (inr tt,
      emit w (Printed ("Error deleting item: "
                       ++ exn_str (FileExistsError (backup_target item backup_dir)))))).
Proof.
  intros env item backup_dir w earlier Hb Ht. split; [| split].
  - intros other Hn. unfold backup_target. now rewrite Hn.
  - intros data old Hi -> Hne. now apply (delete_file_over_backup _ _ _ _ data old).
  - intros Hi. now apply (delete_directory_over_backup _ _ _ _ earlier).
Qed.

Lemma same_name_backups_collide_witness :
  exists t',
    delete_item env0 "/home/u/b/n.txt" "/home/u/backups" world_after_first_delete =
    (inr tt, emit (with_fs world_after_first_delete t')
               (Printed "n.txt was deleted and backed up.")) /\
    stat env0 t' "/home/u/backups/deleted_n.txt" = Some (File "second") /\
    stat env0 t' "/home/u/b/n.txt" = None.
Proof.
  apply (proj1 (proj2 (same_name_backups_collide env0 "/home/u/b/n.txt" "/home/u/backups"
                         world_after_first_delete (File "first") eq_refl eq_refl))
           "second" "first").
  - reflexivity.
  - reflexivity.
  - vm_compute. discriminate.
Defined.

(** C6 as stated fails for directories: after [/home/u/a/N] has been deleted,
    deleting [/home/u/b/N] stops with "File exists"; [/home/u/b/N] is still
    there and the backup still holds the first directory. *)
Lemma second_directory_delete_fails :
  let w1 := snd (delete_item env0 "/home/u/a/N" "/home/u/backups" (world0 [])) in
  let w2 := snd (delete_item env0 "/home/u/b/N" "/home/u/backups" w1) in
  stdout w1 = [Printed "N was deleted and backed up."] /\
  stat env0 (fs w1) "/home/u/a/N" = None /\
  stdout w2 =
    [Printed "N was deleted and backed up.";
     Printed "Error deleting item: [Errno 17] File exists: '/home/u/backups/deleted_N'"] /\
  stat env0 (fs w2) "/home/u/b/N" = Some (Dir [("y", File "2")]) /\
  stat env0 (fs w2) "/home/u/backups/deleted_N" = Some (Dir [("x", File "1")]).
Proof. vm_compute. repeat split. Qed.

(** C2 at the backup directory itself: the copy is made inside the directory
    that is then removed, so the success line is printed and neither the item
    nor any [deleted_backups] is left. *)
Theorem delete_of_backup_directory_keeps_no_copy :
  let item := "/home/u/backups" in
  let backup_dir := PosixPath.join2 (expanduser_home env0) "backups" in
  let w' := snd (delete_item env0 item backup_dir (world0 [])) in
  backup_dir = item /\
  is_dir (stat env0 fs0 item) = true /\
  fst (delete_item env0 item backup_dir (world0 [])) = inr tt /\
  stdout w' = [Printed "backups was deleted and backed up."] /\
  stat env0 (fs w') (backup_target item backup_dir) = None /\
  stat env0 (fs w') backup_dir = None.
Proof. vm_compute. repeat split. Qed.

(** ** Logging after an operation (C8) *)

Lemma try_except_print_returns (body : M unit) (msg : exn -> string) w :
  tame body -> fst (try_except body (fun e => print (msg e)) w) = inr tt.
Proof.
  intros Hb. unfold try_except. destruct (Hb w) as (_ & _ & He).
  destruct (body w) as [[e | []] w1]; simpl in *; [| reflexivity].
  now rewrite (He e eq_refl).
Qed.

Lemma copy_item_returns env s d w : fst (copy_item env s d w) = inr tt.
Proof. unfold copy_item. apply try_except_print_returns. tame_tac. Qed.

Lemma move_item_returns env s d w : fst (move_item env s d w) = inr tt.
Proof.
  unfold move_item. apply try_except_print_returns. tame_tac; apply tame_shutil_move.
Qed.

Lemma delete_item_returns env s d w : fst (delete_item env s d w) = inr tt.
Proof. unfold delete_item. apply try_except_print_returns. tame_tac. Qed.

Lemma log_action_appends env action log w1 f :
  fst (open_append env log w1) = inr f ->
  exists w2,
    log_action env action log w1 = (inr tt, w2) /\
    read_file (fs w2) f =
      Some (old_content (fs w1) f ++ now env (ticks w1) ++ ": " ++ action ++ newline) /\
    ticks w2 = S (ticks w1) /\ stdout w2 = stdout w1 /\ stdin w2 = stdin w1.
Proof.
  unfold log_action, open_append, old_content, read_file. intros H.
  destruct (locate env log) as [p |]; [| discriminate].
  unfold bind at 1.
  destruct (lookup p (fs w1)) as [[data | es] |] eqn:Hl; simpl in H; try discriminate.
  - inversion H; subst f. rewrite Hl.
    unfold bind, datetime_now, file_write, syscall. cbn [fs].
    rewrite Hl.
    destruct (put_succeeds p (File (data ++ now env (ticks w1) ++ ": " ++ action ++ newline))
                _ _ Hl) as [t' Hput].
    rewrite Hput. eexists. split; [reflexivity |]. cbn [fs with_fs ticks stdout stdin].
    rewrite (put_lookup_same _ _ _ _ Hput). auto.
  - destruct (put p (File "") (fs w1)) as [t0 |] eqn:Hput0; simpl in H; [| discriminate].
    inversion H; subst f. rewrite Hl.
    unfold bind, datetime_now, file_write, syscall. cbn [fs with_fs ticks].
    pose proof (put_lookup_same _ _ _ _ Hput0) as Hl0. rewrite Hl0.
    destruct (put_succeeds p (File ("" ++ now env (ticks w1) ++ ": " ++ action ++ newline))
                _ _ Hl0) as [t' Hput].
    rewrite Hput. eexists. split; [reflexivity |]. cbn [fs with_fs ticks stdout stdin].
    rewrite (put_lookup_same _ _ _ _ Hput). auto.
Qed.

Lemma input_two text1 text2 w a b rest :
  stdin w = a :: b :: rest ->
  forall {A} (k : string -> string -> M A),
    bind (input text1) (fun x => bind (input text2) (fun y => k x y)) w =
    k a b (prompted w [text1; text2] rest).
Proof.
  intros Hin A k. unfold bind, input. cbn [emit stdin stdout fs ticks].
  rewrite Hin. cbn [emit stdin stdout fs ticks].
  unfold prompted. cbn [map]. now rewrite <- app_assoc.
Qed.

Lemma input_one text w a rest :
  stdin w = a :: rest ->
  forall {A} (k : string -> M A),
    bind (input text) k w = k a (prompted w [text] rest).
Proof.
  intros Hin A k. unfold bind, input. cbn [emit stdin stdout fs ticks].
  now rewrite Hin.
Qed.

Lemma dispatch_copy env st w src dst rest :
  stdin w = src :: dst :: rest ->
  mode_in (m (args st)) [elevated; admin] = true ->
  let wi := prompted w ["Enter source path: "; "Enter destination path: "] rest in
  dispatch env st "2" w =
  if is_some (stat env (fs w) src)
  then logged env st ("Copied " ++ src ++ " to " ++ dst)
         (snd (copy_item env src dst wi))
  else (inr (Some st), emit wi (Printed "Source does not exist.")).
Proof.
  intros Hin Hm wi. unfold dispatch. simpl (String.eqb _ _). rewrite Hm. cbn [andb].
  rewrite (input_two _ _ _ _ _ _ Hin). fold wi.
  unfold bind at 1. unfold os_path_exists at 1, ask.
  change (fs wi) with (fs w).
  destruct (is_some (stat env (fs w) src)).
  - unfold bind at 1. unfold bind at 1.
    pose proof (copy_item_returns env src dst wi) as Hr.
    destruct (copy_item env src dst wi) as [[e | []] w1]; [discriminate |].
    unfold logged. cbn [snd].
    destruct (log_action env ("Copied " ++ src ++ " to " ++ dst) (log_file st) w1)
      as [[e | []] w2]; reflexivity.
  - reflexivity.
Qed.

Lemma dispatch_move env st w src dst rest :
  stdin w = src :: dst :: rest ->
  mode_eqb (m (args st)) admin = true ->
  let wi := prompted w ["Enter source path: "; "Enter destination path: "] rest in
  dispatch env st "3" w =
  if is_some (stat env (fs w) src)
  then logged env st ("Moved " ++ src ++ " to " ++ dst)
         (snd (move_item env src dst wi))
  else (inr (Some st), emit wi (Printed "Source does not exist.")).
Proof.
  intros Hin Hm wi. unfold dispatch. simpl (String.eqb _ _). rewrite Hm. cbn [andb].
  rewrite (input_two _ _ _ _ _ _ Hin). fold wi.
  unfold bind at 1. unfold os_path_exists at 1, ask.
  change (fs wi) with (fs w).
  destruct (is_some (stat env (fs w) src)).
  - unfold bind at 1. unfold bind at 1.
    pose proof (move_item_returns env src dst wi) as Hr.
    destruct (move_item env src dst wi) as [[e | []] w1]; [discriminate |].
    unfold logged. cbn [snd].
    destruct (log_action env ("Moved " ++ src ++ " to " ++ dst) (log_file st) w1)
      as [[e | []] w2]; reflexivity.
  - reflexivity.
Qed.

Lemma dispatch_delete env st w item rest :
  stdin w = item :: rest ->
  mode_eqb (m (args st)) admin = true ->
  let wi := prompted w ["Enter path of item to delete: "] rest in
  let backup_dir := PosixPath.join2 (expanduser_home env) "backups" in
  dispatch env st "4" w =
  match ensure_backup_dir env wi with
  | (inl e, wb) => (inl e, wb)
  | (inr _, wb) =>
      if is_some (stat env (fs wb) item)
      then logged env st ("Deleted " ++ item)
             (snd (delete_item env item backup_dir wb))
      else (inr (Some st), emit wb (Printed "Item does not exist."))
  end.
Proof.
  intros Hin Hm wi backup_dir. unfold dispatch. simpl (String.eqb _ _).
  rewrite Hm. cbn [andb].
  rewrite (input_one _ _ _ _ Hin). fold wi. fold backup_dir.
  unfold ensure_backup_dir. fold backup_dir.
  unfold bind, os_path_exists, ask. cbn beta iota.
  destruct ((if negb (is_some (stat env (fs wi) backup_dir))
             then os_makedirs env backup_dir else ret tt) wi)
    as [[e | []] wb]; [reflexivity |].
  destruct (is_some (stat env (fs wb) item)); [| reflexivity].
  pose proof (delete_item_returns env item backup_dir wb) as Hr.
  destruct (delete_item env item backup_dir wb) as [[e | []] w1]; [discriminate |].
  unfold logged. cbn [snd].
  destruct (log_action env ("Deleted " ++ item) (log_file st) w1)
    as [[e | []] w2]; reflexivity.
Qed.

Lemma ensure_backup_dir_files env w :
  let wb := snd (ensure_backup_dir env w) in
  same_files (fs w) (fs wb) /\ ticks wb = ticks w /\
  stdin wb = stdin w /\ stdout wb = stdout w.
Proof.
  unfold ensure_backup_dir, bind, os_path_exists, ask, same_files.
  destruct (is_some (stat env (fs w) (PosixPath.join2 (expanduser_home env) "backups")));
    cbn [negb]; [unfold ret; simpl; repeat split; auto |].
  unfold os_makedirs, syscall, makedirs.
  destruct (locate env (PosixPath.join2 (expanduser_home env) "backups")) as [p |];
    [| simpl; repeat split; auto].
  destruct (mkdirs p (fs w)) as [t' |] eqn:Hmk.
  - simpl. repeat split; auto; now apply (mkdirs_files p (fs w) t').
  - destruct (is_some (lookup p (fs w))); simpl; repeat split; auto.
Qed.

Lemma dispatch_list env st w :
  exists w', dispatch env st "1" w = (inr (Some st), w') /\ same_machine w w'.
Proof.
  unfold dispatch. simpl (String.eqb _ _). cbv iota. unfold bind.
  destruct (list_directory_returns env (current_dir st) w) as [w' [-> Hm]].
  exists w'. split; [reflexivity | exact Hm].
Qed.

Lemma logged_fails env st action w e :
  fst (open_append env (log_file st) w) = inl e ->
  logged env st action w = (inl e, w).
Proof.
  unfold logged, log_action, bind. intros H.
  pose proof (tame_open_append env (log_file st) w) as _.
  unfold open_append in *.
  destruct (locate env (log_file st)) as [p |]; [| simpl in H; congruence].
  destruct (lookup p (fs w)) as [[data | es] |]; simpl in H; try congruence.
  destruct (put p (File "") (fs w)); simpl in H; congruence.
Qed.

(** C8, as the code has it: when the entered path exists, the copy, move
    and delete actions call [log_action] on whatever world the operation
    left, whether the operation worked or printed an error (it never
    raises); [log_action] appends its line whenever the log file can be
    opened for appending at that moment, and otherwise raises without
    writing, which ends the turn with that exception.  The list action and
    the "does not exist" branches write no file and do not read the clock. *)
Theorem log_follows_every_operation :
  forall (env : Env) (st : Locals) (w : World),
    (forall src dst rest,
        stdin w = src :: dst :: rest ->
        mode_in (m (args st)) [elevated; admin] = true ->
        let wi := prompted w ["Enter source path: "; "Enter destination path: "] rest in
        fst (copy_item env src dst wi) = inr tt /\
        dispatch env st "2" w =
        if is_some (stat env (fs w) src)
        then logged env st ("Copied " ++ src ++ " to " ++ dst)
               (snd (copy_item env src dst wi))
        else (inr (Some st), emit wi (Printed "Source does not exist."))) /\
    (forall src dst rest,
        stdin w = src :: dst :: rest ->
        mode_eqb (m (args st)) admin = true ->
        let wi := prompted w ["Enter source path: "; "Enter destination path: "] rest in
        fst (move_item env src dst wi) = inr tt /\
        dispatch env st "3" w =
        if is_some (stat env (fs w) src)
        then logged env st ("Moved " ++ src ++ " to " ++ dst)
               (snd (move_item env src dst wi))
        else (inr (Some st), emit wi (Printed "Source does not exist."))) /\
    (forall item rest,
        stdin w = item :: rest ->
        mode_eqb (m (args st)) admin = true ->
        let wi := prompted w ["Enter path of item to delete: "] rest in
        let backup_dir := PosixPath.join2 (expanduser_home env) "backups" in
        let wb := snd (ensure_backup_dir env wi) in
        (same_files (fs w) (fs wb) /\ ticks wb = ticks w) /\
        fst (delete_item env item backup_dir wb) = inr tt /\
        dispatch env st "4" w =
        match ensure_backup_dir env wi with
        | (inl e, _) => (inl e, wb)
        | (inr _, _) =>
            if is_some (stat env (fs wb) item)
            then logged env st ("Deleted " ++ item)
                   (snd (delete_item env item backup_dir wb))
            else (inr (Some st), emit wb (Printed "Item does not exist."))
        end) /\
    (forall action w1 f,
        fst (open_append env (log_file st) w1) = inr f ->
        exists w2,
          logged env st action w1 = (inr (Some st), w2) /\
          read_file (fs w2) f =
            Some (old_content (fs w1) f
                  ++ now env (ticks w1) ++ ": " ++ action ++ newline) /\
          ticks w2 = S (ticks w1)) /\
    (forall action w1 e,
        fst (open_append env (log_file st) w1) = inl e ->
        logged env st action w1 = (inl e, w1)) /\
    (exists w', dispatch env st "1" w = (inr (Some st), w') /\ same_machine w w').
Proof.
  intros env st w. split; [| split; [| split; [| split; [| split]]]].
  - intros src dst rest Hin Hm wi. split; [apply copy_item_returns |].
    now apply dispatch_copy.
  - intros src dst rest Hin Hm wi. split; [apply move_item_returns |].
    now apply dispatch_move.
  - intros item rest Hin Hm wi backup_dir wb.
    pose proof (ensure_backup_dir_files env wi) as (Hf & Ht & _). fold wb in Hf, Ht.
    split; [split; assumption |]. split; [apply delete_item_returns |].
    rewrite (dispatch_delete env st w item rest Hin Hm). fold wi. fold backup_dir.
    unfold wb. destruct (ensure_backup_dir env wi) as [[e | []] w0]; reflexivity.
  - intros action w1 f Hf.
    destruct (log_action_appends env action (log_file st) w1 f Hf)
      as (w2 & Hlog & Hread & Ht & _).
    exists w2. unfold logged. rewrite Hlog. auto.
  - intros action w1 e. apply logged_fails.
  - apply dispatch_list.
Qed.

(** A copy that fails is logged all the same. *)
Lemma log_follows_every_operation_witness :
  dispatch env0 (locals0 admin) "2" (world0 ["/home/u/a"; "/home/u/b"]) =
  logged env0 (locals0 admin) "Copied /home/u/a to /home/u/b"
    (emit (prompted (world0 ["/home/u/a"; "/home/u/b"])
             ["Enter source path: "; "Enter destination path: "] [])
       (Printed "Error copying item: [Errno 17] File exists: '/home/u/b'")).
Proof.
  destruct (log_follows_every_operation env0 (locals0 admin)
              (world0 ["/home/u/a"; "/home/u/b"])) as (Hcopy & _).
  destruct (Hcopy "/home/u/a" "/home/u/b" [] eq_refl eq_refl) as [_ Hrun].
  exact Hrun.
Defined.

(** C8 as stated fails: the item exists and is deleted, the success line is
    printed, and [log_action] then raises because the directory of the log
    file went with the item; no line is written. *)
Lemma log_line_lost_with_the_log_directory :
  let w := world0 ["/home/u/Python_Log"] in
  let r := dispatch env0 (locals0 admin) "4" w in
  is_some (stat env0 (fs w) "/home/u/Python_Log") = true /\
  fst r = inl (FileNotFoundError "/home/u/Python_Log/system_log.txt") /\
  In (Printed "Python_Log was deleted and backed up.") (stdout (snd r)) /\
  stat env0 (fs (snd r)) "/home/u/Python_Log/system_log.txt" = None /\
  stat env0 (fs (snd r)) "/home/u/backups/deleted_Python_Log/system_log.txt"
    = Some (File EmptyString) /\
  ticks (snd r) = 0.
Proof. vm_compute. intuition. Qed.

(** ** The start directory test, exactly *)

Lemma common_len_prefix a : forall b,
  is_prefix a b = true -> PosixPath.common_len a b = List.length a.
Proof.
  induction a as [| x a IH]; intros [| y b] H; simpl in *; auto; try discriminate.
  apply andb_true_iff in H. destruct H as [Hxy H]. rewrite Hxy. f_equal. auto.
Qed.

Lemma endswith_sep_app x y :
  y <> "" -> Str.endswith_sep (x ++ y) = Str.endswith_sep y.
Proof.
  intros Hy. induction x as [| c x IH]; simpl; auto.
  rewrite IH. destruct (x ++ y) eqn:E; [| reflexivity].
  destruct x; simpl in E; [congruence | discriminate].
Qed.

Lemma sepfree_no_trailing_sep s : Str.sepfree s = true -> Str.endswith_sep s = false.
Proof.
  induction s as [| c t IH]; simpl; auto.
  intros H. apply andb_true_iff in H. destruct H as [Hc Ht].
  apply negb_true_iff in Hc. destruct t; auto.
Qed.

Lemma plain_parts s :
  plain s = true -> s <> "" /\ Str.sepfree s = true.
Proof.
  unfold plain. intros H. apply andb_true_iff in H. destruct H as [Hn Hs].
  split; [| exact Hs]. destruct s; [discriminate | discriminate].
Qed.

(** [os.path.join] of plain names is their text with separators between. *)
Lemma join_plain p : forall a,
  a <> "" -> Str.endswith_sep a = false ->
  Forall (fun x => plain x = true) p ->
  PosixPath.join a p =
  match p with [] => a | _ :: _ => a ++ String Str.sep (Str.join p) end.
Proof.
  unfold PosixPath.join.
  induction p as [| b r IH]; intros a Ha Hsep Hp; [reflexivity |].
  inversion Hp as [| ? ? Hb Hr]; subst.
  destruct (plain_parts _ Hb) as [Hbne Hbsf].
  cbn [fold_left].
  assert (Hj : PosixPath.join2 a b = a ++ String Str.sep b).
  { unfold PosixPath.join2. rewrite (sepfree_not_abs _ Hbsf), Hsep.
    destruct a; [congruence | reflexivity]. }
  rewrite Hj, IH; auto.
  - destruct r as [| c r']; [reflexivity |].
    change (Str.join (b :: c :: r')) with (b ++ String Str.sep (Str.join (c :: r'))).
    rewrite append_assoc. reflexivity.
  - destruct a; [congruence | discriminate].
  - rewrite endswith_sep_app.
    + simpl. destruct b; [congruence |]. now apply sepfree_no_trailing_sep in Hbsf.
    + discriminate.
Qed.

Lemma startswith_dotdot_app_sep a b :
  Str.startswith (a ++ String Str.sep b) ".." = Str.startswith a "..".
Proof.
  destruct a as [| c a]; [reflexivity |].
  destruct a as [| c2 a]; simpl.
  - now rewrite andb_false_r.
  - reflexivity.
Qed.

Lemma contains_app_sep a b :
  Str.contains ".." (a ++ String Str.sep b) =
  Str.contains ".." a || Str.contains ".." b.
Proof.
  induction a as [| c a IH].
  - reflexivity.
  - change (String c a ++ String Str.sep b) with (String c (a ++ String Str.sep b)).
    cbn [Str.contains].
    change (String c (a ++ String Str.sep b)) with (String c a ++ String Str.sep b).
    rewrite startswith_dotdot_app_sep, IH. now rewrite orb_assoc.
Qed.

Lemma contains_join l :
  Str.contains ".." (Str.join l) = existsb (Str.contains "..") l.
Proof.
  induction l as [| x r IH]; [reflexivity |].
  destruct r as [| y r'].
  - simpl. now rewrite orb_false_r.
  - change (Str.join (x :: y :: r')) with (x ++ String Str.sep (Str.join (y :: r'))).
    rewrite contains_app_sep, IH. reflexivity.
Qed.

Lemma dotdot_free_existsb l :
  dotdot_free l = negb (existsb (Str.contains "..") l).
Proof.
  unfold dotdot_free. induction l as [| x r IH]; simpl; auto.
  rewrite IH. now rewrite negb_orb.
Qed.

(** The relative path of a directory inside the start. *)
Lemma relpath_inside env dir root :
  dir <> "" ->
  is_prefix (resolve env root) (resolve env dir) = true ->
  exists rel,
    PosixPath.relpath (getcwd env) dir root = Some rel /\
    Str.contains ".." rel = negb (dotdot_free (below_root env root dir)).
Proof.
  intros Hd Hpre. unfold PosixPath.relpath, below_root.
  destruct dir as [| c t]; [congruence |].
  fold (resolve env root). fold (resolve env (String c t)).
  set (start_list := resolve env root) in *.
  set (path_list := resolve env (String c t)) in *.
  cbv zeta. rewrite (common_len_prefix _ _ Hpre), Nat.sub_diag. cbn [repeat app].
  pose proof (resolve_plain env (String c t)) as Hplain. fold path_list in Hplain.
  rewrite <- (firstn_skipn (List.length start_list) path_list) in Hplain.
  apply Forall_app in Hplain. destruct Hplain as [_ Hplain].
  destruct (skipn (List.length start_list) path_list) as [| a p] eqn:Hskip.
  - eexists. split; reflexivity.
  - eexists. split; [reflexivity |].
    inversion Hplain as [| ? ? Ha Hp]; subst.
    destruct (plain_parts _ Ha) as [Hane Hasf].
    rewrite (join_plain p a Hane (sepfree_no_trailing_sep _ Hasf) Hp).
    rewrite dotdot_free_existsb, negb_involutive.
    destruct p as [| b r]; [simpl; now rewrite orb_false_r |].
    rewrite contains_app_sep. cbn [existsb]. now rewrite contains_join.
Qed.

(** X1: the start directory passes the test of line 158 exactly when it is
    absolute, its normalised names extend those of the root, and none of the
    names below the root has [..] in its text; the test itself never
    raises. *)
Theorem start_directory_accepted_exactly :
  forall (env : Env) (root dir : string) (w : World),
    (exists b, path_rejected env root dir w = (inr b, w)) /\
    (path_rejected env root dir w = (inr false, w) <->
     PosixPath.isabs dir = true /\
     inside_root env root dir = true /\
     dotdot_free (below_root env root dir) = true).
Proof.
  intros env root dir w.
  assert (Hne : PosixPath.isabs dir = true -> dir <> "")
    by (intros H ->; discriminate).
  split.
  - unfold path_rejected, os_path_relpath, bind.
    destruct (PosixPath.isabs dir) eqn:Habs; simpl; [| eexists; reflexivity].
    destruct dir as [| c t]; [discriminate |].
    unfold PosixPath.relpath.
    match goal with
    | |- context [match ?l with [] => Some _ | a :: p => Some _ end] => destruct l
    end; eexists; reflexivity.
  - split.
    + intros H. destruct (path_rejected_false _ _ _ _ H) as [Habs [rel [Hrel Hc]]].
      pose proof (relpath_without_pardir env dir root rel Hrel Hc) as Hin.
      destruct (relpath_inside env dir root (Hne Habs) Hin) as [rel' [Hrel' Hc']].
      rewrite Hrel in Hrel'. inversion Hrel'; subst rel'.
      rewrite Hc in Hc'. repeat split; auto.
      destruct (dotdot_free (below_root env root dir)); [reflexivity | discriminate].
    + intros (Habs & Hin & Hfree).
      destruct (relpath_inside env dir root (Hne Habs) Hin) as [rel [Hrel Hc]].
      unfold path_rejected, os_path_relpath, bind. rewrite Habs. cbn [negb].
      rewrite Hrel. unfold ret. rewrite Hc, Hfree. reflexivity.
Qed.

(** ** Choices that are not on the menu *)

(** X2: the dispatcher handles only what the menu of the current mode
    offers: any other line (a number the mode does not show, a number with
    blanks around it, the empty line, other text) is answered with
    "Invalid choice." and has no other effect. *)
Theorem choice_off_the_menu_is_invalid :
  forall (env : Env) (st : Locals) (choice : string) (w : World),
    ~ In choice (map Str.of_nat (offered (args st) w)) ->
    dispatch env st choice w = (inr (Some st), emit w (Printed "Invalid choice.")).
Proof.
  intros env st choice w H. rewrite offered_by_mode in H. unfold dispatch.
  destruct (m (args st)); cbv [map Str.of_nat] in H; simpl in H;
    repeat match goal with
           | |- context [String.eqb choice ?s] =>
               destruct (String.eqb_spec choice s)
           end;
    try reflexivity; try congruence; exfalso; apply H; subst; tauto.
Qed.

Lemma choice_off_the_menu_is_invalid_witness :
  dispatch env0 (locals0 elevated) " 1" (world0 []) =
  (inr (Some (locals0 elevated)), emit (world0 []) (Printed "Invalid choice.")).
Proof.
  apply (choice_off_the_menu_is_invalid env0 (locals0 elevated) " 1" (world0 [])).
  vm_compute. intuition discriminate.
Defined.

(** ** A session in basic mode *)

Lemma same_machine_refl w : same_machine w w.
Proof. unfold same_machine. auto. Qed.

Lemma dispatch_basic env st choice w :
  m (args st) = basic -> same_machine w (snd (dispatch env st choice w)).
Proof.
  intros Hm. unfold dispatch. rewrite Hm.
  destruct (String.eqb choice "0"); [apply same_machine_refl |].
  destruct (String.eqb choice "1").
  - unfold bind.
    destruct (list_directory_returns env (current_dir st) w) as [w' [-> Hs]].
    exact Hs.
  - cbn [mode_in mode_eqb existsb orb andb]. rewrite !andb_false_r.
    unfold same_machine. simpl. auto.
Qed.

Lemma show_menu_effect a w :
  fst (show_menu a w) = inr tt /\ same_machine w (snd (show_menu a w)).
Proof.
  unfold show_menu, same_machine. destruct (m a); simpl; auto.
Qed.

Lemma iteration_basic env st w :
  m (args st) = basic ->
  fs (snd (iteration env st w)) = fs w /\ ticks (snd (iteration env st w)) = ticks w.
Proof.
  intros Hm. unfold iteration, bind.
  pose proof (show_menu_effect (args st) w) as (Hr & Hf & Ht & _).
  destruct (show_menu (args st) w) as [[e | []] wm]; simpl in Hr, Hf, Ht;
    [discriminate |].
  unfold input. cbn [emit stdin fs ticks stdout].
  destruct (stdin wm) as [| choice rest]; [simpl; auto |].
  match goal with
  | |- context [dispatch env st choice ?w1] =>
      pose proof (dispatch_basic env st choice w1 Hm) as (Hf1 & Ht1 & _);
      destruct (dispatch env st choice w1) as [r w2]
  end.
  simpl in *. split; congruence.
Qed.

Lemma loop_basic env : forall fuel st w r w',
  m (args st) = basic ->
  loop env fuel st w = Some (r, w') -> fs w' = fs w /\ ticks w' = ticks w.
Proof.
  induction fuel as [| fuel IH]; intros st w r w' Hm H; [discriminate |].
  simpl in H. pose proof (iteration_basic env st w Hm) as [Hf Ht].
  destruct (iteration env st w) as [[e | [st' |]] w1] eqn:Hit; simpl in Hf, Ht.
  - inversion H; subst. auto.
  - apply iteration_locals in Hit. subst st'.
    destruct (IH _ _ _ _ Hm H) as [Hf' Ht']. split; congruence.
  - inversion H; subst. auto.
Qed.

(** All [setup_logging] can do to the machine is make directories. *)
Lemma setup_logging_effect env w :
  let w1 := snd (setup_logging env w) in
  same_files (fs w) (fs w1) /\ grown (fs w) (fs w1) /\
  ticks w1 = ticks w /\ stdin w1 = stdin w /\ stdout w1 = stdout w.
Proof.
  unfold setup_logging, bind, os_path_exists, ask. cbv beta iota.
  set (log_dir := PosixPath.join2 (expanduser_home env) "Python_Log").
  destruct (is_some (stat env (fs w) log_dir)); cbn [negb].
  - unfold ret. simpl. repeat split; auto; apply grown_refl.
  - destruct (os_makedirs env log_dir w) as [[e | []] w1] eqn:Hmk.
    + simpl. pose proof (os_makedirs_grown _ _ _ _ _ Hmk) as Hg.
      unfold os_makedirs, syscall in Hmk.
      destruct (makedirs env (fs w) log_dir); inversion Hmk; subst.
      repeat split; auto.
    + unfold ret. simpl. pose proof (os_makedirs_grown _ _ _ _ _ Hmk) as Hg.
      unfold os_makedirs, syscall, makedirs in Hmk.
      destruct (locate env log_dir) as [p |]; [| discriminate].
      destruct (mkdirs p (fs w)) as [t' |] eqn:Hmkd.
      * inversion Hmk; subst. simpl. repeat split; auto;
          now apply (mkdirs_files p (fs w) t').
      * destruct (is_some (lookup p (fs w))); discriminate.
Qed.

Lemma startup_effect env a w :
  fs (snd (startup env a w)) = fs (snd (setup_logging env w)) /\
  ticks (snd (startup env a w)) = ticks w.
Proof.
  pose proof (setup_logging_effect env w) as (_ & _ & Ht & _).
  unfold startup, bind.
  destruct (setup_logging env w) as [[e | log] w1]; simpl in *; auto.
  unfold path_rejected, os_path_relpath, bind.
  destruct (PosixPath.isabs (start_dir a)); simpl; auto.
  destruct (PosixPath.relpath (getcwd env) (start_dir a) ROOT) as [rel |]; simpl; auto.
  destruct (Str.contains ".." rel); simpl; auto.
Qed.

(** X3: a whole session in basic mode is read-only.  Whatever is typed,
    the filesystem [main] leaves is the one [setup_logging] left at startup
    (which can only have made the log directory): no regular file is
    created, changed or removed, and the clock is never read, so nothing is
    logged. *)
Theorem basic_session_is_read_only :
  forall (env : Env) (a : Args) (w : World) r (w' : World),
    m a = basic ->
    main env a w = Some (r, w') ->
    fs w' = fs (snd (setup_logging env w)) /\
    same_files (fs w) (fs w') /\
    ticks w' = ticks w.
Proof.
  intros env a w r w' Hm H.
  pose proof (startup_effect env a w) as [Hf Ht].
  pose proof (setup_logging_effect env w) as (Hfiles & _).
  assert (Hgoal : fs w' = fs (snd (setup_logging env w)) /\ ticks w' = ticks w).
  { unfold main in H.
    destruct (startup env a w) as [[e | st] w0] eqn:Hs; simpl in Hf, Ht.
    - inversion H; subst. auto.
    - pose proof (startup_locals _ _ _ _ _ Hs) as Hst.
      assert (Hmode : m (args st) = basic) by (rewrite Hst; exact Hm).
      destruct (loop_basic env _ _ _ _ _ Hmode H) as [Hf' Ht'].
      split; congruence. }
  destruct Hgoal as [Hfs Hticks]. repeat split; auto; rewrite Hfs; apply Hfiles.
Qed.

Lemma basic_session_is_read_only_witness :
  fs (world0 []) = fs (snd (setup_logging env0 (world0 ["1"; "4"; "2"; "0"]))) /\
  same_files (fs (world0 ["1"; "4"; "2"; "0"])) (fs (world0 [])) /\
  ticks (world0 []) = ticks (world0 ["1"; "4"; "2"; "0"]).
Proof.
  pose (r := main env0 {| m := basic; d := None |} (world0 ["1"; "4"; "2"; "0"])).
  assert (H : exists x w', r = Some (x, w') /\ fs w' = fs (world0 []) /\
                           ticks w' = ticks (world0 []))
    by (vm_compute; eexists; eexists; repeat split).
  destruct H as (x & w' & Hr & Hfs & Ht).
  rewrite <- Hfs, <- Ht.
  exact (basic_session_is_read_only env0 {| m := basic; d := None |}
           (world0 ["1"; "4"; "2"; "0"]) x w' eq_refl Hr).
Defined.

(** ** What the operations leave alone: pending input and clock *)

Lemma blind_stdin : blind stdin.
Proof. split; reflexivity. Qed.

Lemma blind_ticks : blind ticks.
Proof. split; reflexivity. Qed.

Section Keeps.

Context {X : Type} (proj : World -> X) (Hblind : blind proj).

Lemma keeps_ret {A} (a : A) : keeps proj (ret a).
Proof. intros w. reflexivity. Qed.

Lemma keeps_raise {A} e : keeps proj (@raise A e).
Proof. intros w. reflexivity. Qed.

Lemma keeps_bind {A B} (c : M A) (k : A -> M B) :
  keeps proj c -> (forall a, keeps proj (k a)) -> keeps proj (bind c k).
Proof.
  intros Hc Hk w. unfold bind. specialize (Hc w).
  destruct (c w) as [[e | a] w1]; simpl in *; [exact Hc |].
  rewrite <- Hc. apply Hk.
Qed.

Lemma keeps_try_except {A} (body : M A) handler :
  keeps proj body -> (forall e, keeps proj (handler e)) ->
  keeps proj (try_except body handler).
Proof.
  intros Hb Hh w. unfold try_except. specialize (Hb w).
  destruct (body w) as [[e | a] w1]; simpl in *; [| exact Hb].
  destruct (is_Exception e); simpl; [| exact Hb].
  rewrite <- Hb. apply Hh.
Qed.

Lemma keeps_try_except_OSError {A} (body handler : M A) :
  keeps proj body -> keeps proj handler ->
  keeps proj (try_except_OSError body handler).
Proof.
  intros Hb Hh w. unfold try_except_OSError. specialize (Hb w).
  destruct (body w) as [[e | a] w1]; simpl in *; [| exact Hb].
  destruct (is_OSError e); simpl; [| exact Hb].
  rewrite <- Hb. apply Hh.
Qed.

Lemma keeps_print line : keeps proj (print line).
Proof. intros w. unfold print. simpl. apply Hblind. Qed.

Lemma keeps_ask {A} (f : node -> A) : keeps proj (ask f).
Proof. intros w. reflexivity. Qed.

Lemma keeps_syscall f : keeps proj (syscall f).
Proof.
  intros w. unfold syscall. destruct (f (fs w)); simpl; [reflexivity |].
  apply Hblind.
Qed.

Lemma keeps_os_listdir env s : keeps proj (os_listdir env s).
Proof.
  intros w. unfold os_listdir.
  destruct (stat env (fs w) s) as [[data | es] |]; reflexivity.
Qed.

Lemma keeps_os_path_getsize env s : keeps proj (os_path_getsize env s).
Proof.
  intros w. unfold os_path_getsize.
  destruct (stat env (fs w) s) as [[data | es] |]; reflexivity.
Qed.

Lemma keeps_open_append env s : keeps proj (open_append env s).
Proof.
  intros w. unfold open_append.
  destruct (locate env s) as [p |]; [| reflexivity].
  destruct (lookup p (fs w)) as [[data | es] |]; try reflexivity.
  destruct (put p (File "") (fs w)); simpl; [apply Hblind | reflexivity].
Qed.

Lemma keeps_shutil_copy env src dst : keeps proj (shutil_copy env src dst).
Proof.
  unfold shutil_copy. apply keeps_bind; [apply keeps_ask |].
  intros b. apply keeps_syscall.
Qed.

Lemma keeps_shutil_copytree env src dst : keeps proj (shutil_copytree env src dst).
Proof.
  intros w. unfold shutil_copytree.
  destruct (stat env (fs w) src) as [[data | es] |]; try reflexivity.
  revert w. apply keeps_bind; [apply keeps_syscall |]. intros _.
  match goal with |- keeps _ (if ?b then _ else _) => destruct b end.
  - apply keeps_raise.
  - apply keeps_syscall.
Qed.

Lemma keeps_for_each {A} (body : A -> M unit) l :
  (forall x, keeps proj (body x)) -> keeps proj (for_each l body).
Proof.
  intros Hb. induction l as [| x r IH]; simpl; [apply keeps_ret |].
  apply keeps_bind; auto.
Qed.

End Keeps.

Create HintDb keeps.
#[local] Hint Resolve blind_stdin blind_ticks : keeps.
#[local] Hint Resolve keeps_ret keeps_raise keeps_print keeps_ask keeps_syscall
  keeps_os_listdir keeps_os_path_getsize keeps_open_append keeps_shutil_copy
  keeps_shutil_copytree : keeps.

(** Takes a program apart for [keeps], down to its system calls. *)
Ltac keeps_tac :=
  unfold os_path_exists, os_path_isdir, os_makedirs, os_remove, shutil_rmtree,
    os_rename, file_write;
  repeat first
    [ solve [auto with keeps]
    | apply keeps_try_except; [| intros ?]
    | apply keeps_try_except_OSError
    | apply keeps_bind; [| intros ?]
    | apply keeps_for_each; intros ?
    | match goal with
      | |- keeps _ (if ?b then _ else _) => destruct b
      | |- keeps _ (let _ := _ in _) => cbv zeta
      end ].

Lemma keeps_shutil_move {X} (proj : World -> X) env src dst :
  blind proj -> keeps proj (shutil_move env src dst).
Proof. intros Hb. unfold shutil_move. keeps_tac. Qed.

Lemma keeps_list_directory {X} (proj : World -> X) env path :
  blind proj -> keeps proj (list_directory env path).
Proof. intros Hb. unfold list_directory. keeps_tac. Qed.

Lemma keeps_copy_item {X} (proj : World -> X) env s d :
  blind proj -> keeps proj (copy_item env s d).
Proof. intros Hb. unfold copy_item. keeps_tac. Qed.

Lemma keeps_move_item {X} (proj : World -> X) env s d :
  blind proj -> keeps proj (move_item env s d).
Proof.
  intros Hb. unfold move_item.
  apply keeps_try_except; [| intros e; now apply keeps_print].
  apply keeps_bind; [now apply keeps_shutil_move | intros _; now apply keeps_print].
Qed.

Lemma keeps_delete_item {X} (proj : World -> X) env s d :
  blind proj -> keeps proj (delete_item env s d).
Proof. intros Hb. unfold delete_item. keeps_tac. Qed.

Lemma keeps_stdin_datetime_now env : keeps stdin (datetime_now env).
Proof. intros w. reflexivity. Qed.

Lemma keeps_stdin_log_action env action log : keeps stdin (log_action env action log).
Proof.
  unfold log_action.
  apply keeps_bind; [apply keeps_open_append, blind_stdin |]. intros f.
  apply keeps_bind; [apply keeps_stdin_datetime_now |]. intros stamp.
  apply keeps_syscall, blind_stdin.
Qed.

(** X4: no error crosses the boundary of an operation: [list_directory],
    [copy_item], [move_item] and [delete_item] return normally for every
    argument and every state of the machine, and none of them reads a line
    of input or the clock. *)
Theorem operations_return_normally :
  forall (env : Env) (a b : string) (w : World),
    (fst (list_directory env a w) = inr tt /\
     stdin (snd (list_directory env a w)) = stdin w /\
     ticks (snd (list_directory env a w)) = ticks w) /\
    (fst (copy_item env a b w) = inr tt /\
     stdin (snd (copy_item env a b w)) = stdin w /\
     ticks (snd (copy_item env a b w)) = ticks w) /\
    (fst (move_item env a b w) = inr tt /\
     stdin (snd (move_item env a b w)) = stdin w /\
     ticks (snd (move_item env a b w)) = ticks w) /\
    (fst (delete_item env a b w) = inr tt /\
     stdin (snd (delete_item env a b w)) = stdin w /\
     ticks (snd (delete_item env a b w)) = ticks w).
Proof.
  intros env a b w. repeat split.
  - destruct (list_directory_returns env a w) as [w' [-> _]]. reflexivity.
  - apply (keeps_list_directory stdin), blind_stdin.
  - apply (keeps_list_directory ticks), blind_ticks.
  - apply copy_item_returns.
  - apply (keeps_copy_item stdin), blind_stdin.
  - apply (keeps_copy_item ticks), blind_ticks.
  - apply move_item_returns.
  - apply (keeps_move_item stdin), blind_stdin.
  - apply (keeps_move_item ticks), blind_ticks.
  - apply delete_item_returns.
  - apply (keeps_delete_item stdin), blind_stdin.
  - apply (keeps_delete_item ticks), blind_ticks.
Qed.

(** ** How a session ends *)

Lemma pops_of_keeps {A} (c : M A) : keeps stdin c -> pops c.
Proof. intros H w. exists 0. apply H. Qed.

Lemma pops_ret {A} (a : A) : pops (ret a).
Proof. apply pops_of_keeps, keeps_ret. Qed.

Lemma pops_bind {A B} (c : M A) (k : A -> M B) :
  pops c -> (forall a, pops (k a)) -> pops (bind c k).
Proof.
  intros Hc Hk w. unfold bind. destruct (Hc w) as [n Hn].
  destruct (c w) as [[e | a] w1]; simpl in *; [eauto |].
  destruct (Hk a w1) as [n' Hn']. exists (n + n').
  rewrite Hn', Hn, skipn_skipn. f_equal. lia.
Qed.

Lemma pops_input text : pops (input text).
Proof.
  intros w. unfold input. cbn [emit stdin].
  destruct (stdin w) as [| l rest] eqn:Hw; simpl; rewrite ?Hw;
    [now exists 0 | now exists 1].
Qed.

Lemma pops_dispatch env st choice : pops (dispatch env st choice).
Proof.
  assert (Hp : forall line, pops (print line))
    by (intros; apply pops_of_keeps, keeps_print, blind_stdin).
  assert (He : forall s, pops (os_path_exists env s))
    by (intros; apply pops_of_keeps, keeps_ask).
  assert (Hl : forall x y, pops (log_action env x y))
    by (intros; apply pops_of_keeps, keeps_stdin_log_action).
  unfold dispatch.
  repeat first
    [ apply pops_ret
    | apply pops_input
    | apply Hp | apply He | apply Hl
    | apply pops_of_keeps, keeps_list_directory, blind_stdin
    | apply pops_of_keeps, keeps_copy_item, blind_stdin
    | apply pops_of_keeps, keeps_move_item, blind_stdin
    | apply pops_of_keeps, keeps_delete_item, blind_stdin
    | apply pops_of_keeps, keeps_syscall, blind_stdin
    | apply pops_bind; [| intros ?]
    | match goal with |- pops (if ?b then _ else _) => destruct b end ].
Qed.

Lemma dispatch_break env st choice w w' :
  dispatch env st choice w = (inr None, w') -> choice = "0".
Proof.
  unfold dispatch. intros H.
  destruct (String.eqb_spec choice "0") as [-> | Hne]; [reflexivity |].
  exfalso.
  repeat match type of H with
         | (if ?b then _ else _) _ = _ => destruct b
         end;
    bind_inv H; unfold ret in H; congruence.
Qed.

Lemma in_skipn {A} (x : A) k l : In x (skipn k l) -> In x l.
Proof.
  revert l. induction k as [| k IH]; intros l H; [exact H |].
  destruct l as [| y l]; [exact H |]. right. now apply IH.
Qed.

Lemma iteration_stdin env st w r w' :
  iteration env st w = (inr r, w') ->
  (r = None -> In "0" (stdin w)) /\
  exists k, stdin w' = skipn k (stdin w).
Proof.
  unfold iteration. intros H. bind_inv H.
  pose proof (show_menu_effect (args st) w) as (_ & _ & _ & Hin).
  rewrite Hstep in Hin. simpl in Hin.
  unfold input in Hstep0. cbn [emit stdin] in Hstep0. rewrite Hin in Hstep0.
  destruct (stdin w) as [| l rest] eqn:Hw; [discriminate |].
  inversion Hstep0; subst a0 w1. clear Hstep0.
  split.
  - intros ->. apply dispatch_break in H. subst. now left.
  - match type of H with
    | dispatch env st l ?w1 = _ =>
        destruct (pops_dispatch env st l w1) as [k Hk]
    end.
    rewrite H in Hk. simpl in Hk. exists (S k). exact Hk.
Qed.

Lemma loop_break env : forall fuel st w w',
  loop env fuel st w = Some (inr tt, w') -> In "0" (stdin w).
Proof.
  induction fuel as [| fuel IH]; intros st w w' H; [discriminate |].
  simpl in H. destruct (iteration env st w) as [[e | [st' |]] w1] eqn:Hit.
  - discriminate.
  - destruct (iteration_stdin _ _ _ _ _ Hit) as [_ [k Hk]].
    apply IH in H. rewrite Hk in H. now apply in_skipn in H.
  - destruct (iteration_stdin _ _ _ _ _ Hit) as [H0 _]. now apply H0.
Qed.

Lemma loop_raises env : forall fuel st w e w',
  loop env fuel st w = Some (inl e, w') -> is_Exception e = true.
Proof.
  induction fuel as [| fuel IH]; intros st w e w' H; [discriminate |].
  simpl in H. pose proof (tame_iteration env st w) as (_ & _ & He).
  destruct (iteration env st w) as [[e1 | [st' |]] w1].
  - inversion H; subst. now apply He.
  - eauto.
  - discriminate.
Qed.

Lemma startup_raises env a w e w' :
  startup env a w = (inl e, w') -> e = SystemExit 1 \/ is_Exception e = true.
Proof.
  unfold startup, bind. intros H.
  pose proof (tame_setup_logging env w) as (_ & _ & H1).
  destruct (setup_logging env w) as [[e1 | log] w1]; simpl in H1.
  - inversion H; subst. right. now apply H1.
  - pose proof (tame_path_rejected env ROOT (start_dir a) w1) as (_ & _ & H2).
    destruct (path_rejected env ROOT (start_dir a) w1) as [[e2 | bad] w2];
      simpl in H2.
    + inversion H; subst. right. now apply H2.
    + destruct bad; simpl in H; inversion H; subst. now left.
Qed.

Lemma startup_stdin env a w : stdin (snd (startup env a w)) = stdin w.
Proof.
  pose proof (setup_logging_effect env w) as (_ & _ & _ & Hin & _).
  unfold startup, bind.
  destruct (setup_logging env w) as [[e | log] w1]; simpl in *; auto.
  unfold path_rejected, os_path_relpath, bind.
  destruct (PosixPath.isabs (start_dir a)); simpl; auto.
  destruct (PosixPath.relpath (getcwd env) (start_dir a) ROOT) as [rel |]; simpl; auto.
  destruct (Str.contains ".." rel); simpl; auto.
Qed.

Lemma exit_status_of_exception e : is_Exception e = true -> exit_status (inl e) = 1.
Proof. destruct e; simpl; auto. discriminate. Qed.

(** X5: how [main] ends.  Either it returns normally, with exit status 0,
    and then the line [0] was among the input; or it ends with an exception
    (a rejected start directory, or an exception outside the operations,
    at the latest [EOFError] when the input runs out) and the exit status
    is 1. *)
Theorem session_ends_by_exit_choice_or_exception :
  forall (env : Env) (a : Args) (w : World) r (w' : World),
    main env a w = Some (r, w') ->
    (r = inr tt /\ exit_status r = 0 /\ In "0" (stdin w)) \/
    ((exists e, r = inl e) /\ exit_status r = 1).
Proof.
  intros env a w r w' H. unfold main in H.
  pose proof (startup_stdin env a w) as Hin.
  destruct (startup env a w) as [[e | st] w0] eqn:Hs; simpl in Hin.
  - inversion H; subst. right. split; [eauto |].
    destruct (startup_raises _ _ _ _ _ Hs) as [-> | He]; [reflexivity |].
    now apply exit_status_of_exception.
  - destruct r as [e | []].
    + right. split; [eauto |].
      apply exit_status_of_exception. eapply loop_raises; eauto.
    + left. repeat split. rewrite <- Hin. eapply loop_break; eauto.
Qed.

Lemma session_ends_by_exit_choice_or_exception_witness :
  (@inl exn unit EOFError = inr tt /\ exit_status (inl EOFError) = 0 /\
   In "0" (stdin (world0 ["1"; "7"]))) \/
  ((exists e, @inl exn unit EOFError = inl e) /\ exit_status (inl EOFError) = 1).
Proof.
  pose (r := main env0 {| m := basic; d := None |} (world0 ["1"; "7"])).
  assert (H : exists w', r = Some (inl EOFError, w'))
    by (vm_compute; eexists; reflexivity).
  destruct H as [w' Hr].
  exact (session_ends_by_exit_choice_or_exception env0 {| m := basic; d := None |}
           (world0 ["1"; "7"]) (inl EOFError) w' Hr).
Defined.

(** ** The log directory and the log file *)

Lemma lookup_chain cs : lookup cs (chain cs) = Some (Dir []).
Proof.
  induction cs as [| c r IH]; simpl; auto. now rewrite String.eqb_refl.
Qed.

(** [mkdirs] leaves an empty directory at the path it was asked for. *)
Lemma mkdirs_lookup p : forall t t', mkdirs p t = Some t' -> lookup p t' = Some (Dir []).
Proof.
  induction p as [| c cs IH]; intros t t' H; simpl in H; [discriminate |].
  destruct t as [fd | es]; [discriminate |].
  destruct (assoc c es) as [m0 |] eqn:Hm.
  - destruct (mkdirs cs m0) as [m' |] eqn:Hmk; [| discriminate].
    inversion H; subst. cbn [lookup]. rewrite assoc_set_same. eauto.
  - inversion H; subst. cbn [lookup]. rewrite assoc_set_same. apply lookup_chain.
Qed.

(** X6: [setup_logging] returns the path [~/Python_Log/system_log.txt];
    once it has returned, [~/Python_Log] exists and a second call changes
    nothing; it makes directories only: every regular file is as before and
    nothing that existed is gone; and it does nothing at all when the log
    directory is already there. *)
Theorem setup_logging_makes_the_log_directory :
  forall (env : Env) (w : World),
    let log_dir := PosixPath.join2 (expanduser_home env) "Python_Log" in
    let w1 := snd (setup_logging env w) in
    (forall log w', setup_logging env w = (inr log, w') ->
        log = PosixPath.join2 log_dir "system_log.txt" /\
        is_some (stat env (fs w') log_dir) = true /\
        setup_logging env w' = (inr log, w')) /\
    same_files (fs w) (fs w1) /\
    grown (fs w) (fs w1) /\
    (is_some (stat env (fs w) log_dir) = true ->
     setup_logging env w = (inr (PosixPath.join2 log_dir "system_log.txt"), w)).
Proof.
  intros env w log_dir w1.
  pose proof (setup_logging_effect env w) as (Hfiles & Hgrown & _).
  assert (Hthere : forall w0,
             is_some (stat env (fs w0) log_dir) = true ->
             setup_logging env w0 =
             (inr (PosixPath.join2 log_dir "system_log.txt"), w0)).
  { intros w0 H0. unfold setup_logging, bind, os_path_exists, ask.
    fold log_dir. now rewrite H0. }
  split; [| split; [exact Hfiles | split; [exact Hgrown | apply Hthere]]].
  intros log w' H.
  assert (Hex : is_some (stat env (fs w') log_dir) = true).
  { revert H. unfold setup_logging, bind, os_path_exists, ask. fold log_dir.
    destruct (is_some (stat env (fs w) log_dir)) eqn:Hex; cbn [negb].
    - unfold ret. intros H. inversion H; subst. exact Hex.
    - unfold os_makedirs, syscall, makedirs, stat.
      destruct (locate env log_dir) as [p |]; [| discriminate].
      destruct (mkdirs p (fs w)) as [t' |] eqn:Hmk.
      + unfold ret. intros H. inversion H; subst. simpl.
        now rewrite (mkdirs_lookup _ _ _ Hmk).
      + destruct (is_some (lookup p (fs w))); discriminate. }
  assert (Hlog : log = PosixPath.join2 log_dir "system_log.txt").
  { revert H. unfold setup_logging, bind, os_path_exists, ask. fold log_dir.
    destruct (is_some (stat env (fs w) log_dir)); cbn [negb].
    - unfold ret. congruence.
    - destruct (os_makedirs env log_dir w) as [[e | []] w2]; [discriminate |].
      unfold ret. congruence. }
  split; [exact Hlog | split; [exact Hex |]].
  rewrite Hlog. now apply Hthere.
Qed.

Lemma setup_logging_makes_the_log_directory_witness :
  setup_logging env0 (world0 []) =
  (inr "/home/u/Python_Log/system_log.txt", world0 []).
Proof.
  apply (proj2 (proj2 (proj2
           (setup_logging_makes_the_log_directory env0 (world0 []))))).
  reflexivity.
Defined.

Lemma put_keeps_file p v : forall q t t' data,
  is_prefix p q = false ->
  lookup q t = Some (File data) ->
  put p v t = Some t' ->
  lookup q t' = Some (File data).
Proof.
  induction p as [| c cs IH]; intros q t t' data Hpre Hq H; [discriminate |].
  simpl in H. destruct t as [fd | es]; [discriminate |].
  destruct q as [| k ks]; [discriminate |].
  simpl in Hpre, Hq.
  destruct (String.eqb_spec c k) as [-> | Hne].
  - simpl in Hpre. destruct cs as [| c2 r]; [discriminate |].
    destruct (assoc k es) as [m0 |] eqn:Hm; [| discriminate].
    destruct (put (c2 :: r) v m0) as [m' |] eqn:Hput; [| discriminate].
    inversion H; subst. cbn [lookup]. rewrite assoc_set_same. eauto.
  - assert (Hset : forall x, assoc k (set_entry c x es) = assoc k es)
      by (intro x; apply assoc_set_other; congruence).
    destruct cs as [| c2 r].
    + inversion H; subst. cbn [lookup]. now rewrite Hset.
    + destruct (assoc c es) as [m0 |]; [| discriminate].
      destruct (put (c2 :: r) v m0) as [m' |]; [| discriminate].
      inversion H; subst. cbn [lookup]. now rewrite Hset.
Qed.

Lemma del_keeps_file p : forall q t t' data,
  is_prefix p q = false ->
  lookup q t = Some (File data) ->
  del p t = Some t' ->
  lookup q t' = Some (File data).
Proof.
  induction p as [| c cs IH]; intros q t t' data Hpre Hq H; [discriminate |].
  simpl in H. destruct t as [fd | es]; [discriminate |].
  destruct q as [| k ks]; [discriminate |].
  simpl in Hpre, Hq.
  destruct (String.eqb_spec c k) as [-> | Hne].
  - simpl in Hpre. destruct (assoc k es) as [m0 |] eqn:Hm; [| discriminate].
    destruct cs as [| c2 r]; [discriminate |].
    destruct (del (c2 :: r) m0) as [m' |] eqn:Hdel; [| discriminate].
    inversion H; subst. cbn [lookup]. rewrite assoc_set_same. eauto.
  - destruct (assoc c es) as [m0 |]; [| discriminate].
    destruct cs as [| c2 r].
    + inversion H; subst. cbn [lookup].
      rewrite assoc_remove_other by congruence. exact Hq.
    + destruct (del (c2 :: r) m0) as [m' |]; [| discriminate].
      inversion H; subst. cbn [lookup].
      rewrite assoc_set_other by congruence. exact Hq.
Qed.

(** A regular file is not at or below a path that is missing or a regular
    file itself, unless it is that path. *)
Lemma file_not_below p q t data :
  lookup q t = Some (File data) -> q <> p ->
  (forall es, lookup p t <> Some (Dir es)) ->
  is_prefix p q = false.
Proof.
  intros Hq Hne Hp. destruct (is_prefix p q) eqn:Hpre; [| reflexivity].
  exfalso. destruct (is_prefix_app _ _ Hpre) as [r ->].
  rewrite lookup_app in Hq. destruct r as [| k r].
  - apply Hne. now rewrite app_nil_r.
  - destruct (lookup p t) as [[fd | es] |]; try discriminate.
    now apply (Hp es).
Qed.

Lemma open_append_locate env log w f :
  fst (open_append env log w) = inr f -> locate env log = Some f.
Proof.
  unfold open_append. destruct (locate env log) as [p |]; [| discriminate].
  destruct (lookup p (fs w)) as [[data | es] |]; simpl; try congruence.
  destruct (put p (File "") (fs w)); simpl; congruence.
Qed.

Lemma open_append_not_dir env log w f :
  fst (open_append env log w) = inr f -> forall es, lookup f (fs w) <> Some (Dir es).
Proof.
  unfold open_append. destruct (locate env log) as [p |]; [| discriminate].
  destruct (lookup p (fs w)) as [[data | es0] |] eqn:Hl; simpl; try discriminate.
  - intros H es. inversion H; subst. congruence.
  - destruct (put p (File "") (fs w)); simpl; [| discriminate].
    intros H es. inversion H; subst. congruence.
Qed.

(** [log_action] touches no other regular file. *)
Lemma log_action_frame env action log w f q data :
  fst (open_append env log w) = inr f ->
  q <> f -> lookup q (fs w) = Some (File data) ->
  lookup q (fs (snd (log_action env action log w))) = Some (File data).
Proof.
  intros Hf Hne Hq.
  pose proof (file_not_below f q (fs w) data Hq Hne (open_append_not_dir _ _ _ _ Hf))
    as Hpre.
  revert Hf. unfold log_action, open_append.
  destruct (locate env log) as [p |]; [| discriminate].
  unfold bind at 1.
  destruct (lookup p (fs w)) as [[old | es] |] eqn:Hl; simpl; try discriminate.
  - intros H. inversion H; subst p.
    unfold bind, datetime_now, file_write, syscall. cbn [fs]. rewrite Hl.
    match goal with
    | |- context [put f ?v (fs w)] => destruct (put f v (fs w)) as [t' |] eqn:Hput
    end; simpl; [| exact Hq].
    now apply (put_keeps_file f _ q (fs w) t' data Hpre Hq Hput).
  - destruct (put p (File "") (fs w)) as [t0 |] eqn:Hput0; simpl; [| discriminate].
    intros H. inversion H; subst p.
    pose proof (put_keeps_file f _ q (fs w) t0 data Hpre Hq Hput0) as Hq0.
    unfold bind, datetime_now, file_write, syscall. cbn [fs with_fs].
    rewrite (put_lookup_same _ _ _ _ Hput0).
    match goal with
    | |- context [put f ?v t0] => destruct (put f v t0) as [t' |] eqn:Hput
    end; simpl; [| exact Hq0].
    now apply (put_keeps_file f _ q t0 t' data Hpre Hq0 Hput).
Qed.

(** X7: the log is append-only.  When the log file can be opened, two
    logged actions leave in it what it held before followed by the two lines
    in the order of the calls, each stamped with its own reading of the
    clock; every other regular file is as it was. *)
Theorem log_is_append_only :
  forall (env : Env) (first second log : string) (w : World) (f : path),
    fst (open_append env log w) = inr f ->
    exists w2,
      bind (log_action env first log) (fun _ => log_action env second log) w
        = (inr tt, w2) /\
      read_file (fs w2) f =
        Some (old_content (fs w) f
              ++ now env (ticks w) ++ ": " ++ first ++ newline
              ++ now env (S (ticks w)) ++ ": " ++ second ++ newline) /\
      (forall q data,
          q <> f -> lookup q (fs w) = Some (File data) ->
          lookup q (fs w2) = Some (File data)).
Proof.
  intros env first second log w f Hf.
  destruct (log_action_appends env first log w f Hf) as (w1 & H1 & Hr1 & Ht1 & _).
  assert (Hf1 : fst (open_append env log w1) = inr f).
  { pose proof (open_append_locate _ _ _ _ Hf) as Hloc.
    unfold open_append. rewrite Hloc.
    unfold read_file in Hr1.
    destruct (lookup f (fs w1)) as [[d1 | es] |]; try discriminate. reflexivity. }
  destruct (log_action_appends env second log w1 f Hf1) as (w2 & H2 & Hr2 & _).
  exists w2. split; [| split].
  - unfold bind. now rewrite H1.
  - rewrite Hr2. unfold old_content at 1. rewrite Hr1, Ht1.
    rewrite !append_assoc. reflexivity.
  - intros q data Hne Hq.
    pose proof (log_action_frame env first log w f q data Hf Hne Hq) as Hq1.
    rewrite H1 in Hq1. simpl in Hq1.
    pose proof (log_action_frame env second log w1 f q data Hf1 Hne Hq1) as Hq2.
    rewrite H2 in Hq2. exact Hq2.
Qed.

Lemma log_is_append_only_witness :
  exists w2,
    bind (log_action env0 "Copied a to b" "/home/u/Python_Log/system_log.txt")
         (fun _ => log_action env0 "Deleted b" "/home/u/Python_Log/system_log.txt")
         (world0 []) = (inr tt, w2) /\
    read_file (fs w2) ["home"; "u"; "Python_Log"; "system_log.txt"] =
      Some (old_content fs0 ["home"; "u"; "Python_Log"; "system_log.txt"]
            ++ "2024-01-01 00:00:00: Copied a to b" ++ newline
            ++ "2024-01-01 00:00:01: Deleted b" ++ newline) /\
    (forall q data,
        q <> ["home"; "u"; "Python_Log"; "system_log.txt"] ->
        lookup q fs0 = Some (File data) -> lookup q (fs w2) = Some (File data)).
Proof.
  apply (log_is_append_only env0 "Copied a to b" "Deleted b"
           "/home/u/Python_Log/system_log.txt" (world0 [])
           ["home"; "u"; "Python_Log"; "system_log.txt"]).
  reflexivity.
Defined.

(** ** Changing the directory *)

(** X8: [change_directory] reads one line and returns it when it names a
    directory; otherwise it prints "Invalid directory." and returns the
    current path.  So the path it returns is a directory or the path it was
    given, and the filesystem and the clock are untouched; with no input
    left it raises [EOFError]. *)
Theorem change_directory_returns_a_directory :
  forall (env : Env) (current_path : string) (w : World),
    (forall line rest,
        stdin w = line :: rest ->
        let w1 := prompted w ["Enter the new directory path: "] rest in
        change_directory env current_path w =
        if is_dir (stat env (fs w) line)
        then (inr line, w1)
        else (inr current_path, emit w1 (Printed "Invalid directory."))) /\
    (forall r w',
        change_directory env current_path w = (inr r, w') ->
        (r = current_path \/ is_dir (stat env (fs w') r) = true) /\
        fs w' = fs w /\ ticks w' = ticks w /\
        exists line, stdin w = line :: stdin w') /\
    (stdin w = [] ->
     fst (change_directory env current_path w) = inl EOFError).
Proof.
  intros env current_path w.
  assert (Hrun : forall line rest,
             stdin w = line :: rest ->
             change_directory env current_path w =
             if is_dir (stat env (fs w) line)
             then (inr line, prompted w ["Enter the new directory path: "] rest)
             else (inr current_path,
                   emit (prompted w ["Enter the new directory path: "] rest)
                     (Printed "Invalid directory."))).
  { intros line rest Hin. unfold change_directory.
    rewrite (input_one _ _ _ _ Hin). unfold bind, os_path_isdir, ask.
    change (fs (prompted w ["Enter the new directory path: "] rest)) with (fs w).
    destruct (is_dir (stat env (fs w) line)); reflexivity. }
  split; [exact Hrun | split].
  - intros r w' H. destruct (stdin w) as [| line rest] eqn:Hin.
    + unfold change_directory, bind, input in H. cbn [emit stdin] in H.
      rewrite Hin in H. discriminate.
    + rewrite (Hrun line rest eq_refl) in H.
      destruct (is_dir (stat env (fs w) line)) eqn:Hd; inversion H; subst; simpl.
      * repeat split; eauto.
      * repeat split; eauto.
  - intros Hin. unfold change_directory, bind, input. cbn [emit stdin].
    now rewrite Hin.
Qed.

Lemma change_directory_returns_a_directory_witness :
  change_directory env0 "/home/u" (world0 ["/home/u/a.txt"; "0"]) =
  (inr "/home/u",
   emit (prompted (world0 ["/home/u/a.txt"; "0"])
           ["Enter the new directory path: "] ["0"])
     (Printed "Invalid directory.")).
Proof.
  apply (proj1 (change_directory_returns_a_directory env0 "/home/u"
                  (world0 ["/home/u/a.txt"; "0"])) "/home/u/a.txt" ["0"]).
  reflexivity.
Defined.

(** ** Copying, moving and deleting a regular file *)

Lemma put_succeeds_child pp c v : forall t es,
  lookup pp t = Some (Dir es) -> exists t', put (pp ++ [c])%list v t = Some t'.
Proof.
  induction pp as [| k r IH]; intros t es H; simpl in *.
  - inversion H; subst. eauto.
  - destruct t as [fd | es0]; [discriminate |].
    destruct (assoc k es0) as [m0 |]; [| discriminate].
    destruct (IH _ _ H) as [m' Hm'].
    destruct (r ++ [c])%list as [| x y] eqn:Hr.
    + now destruct r.
    + rewrite Hm'. eauto.
Qed.

Lemma lookup_child pp c t es :
  lookup pp t = Some (Dir es) -> lookup (pp ++ [c])%list t = assoc c es.
Proof.
  intros H. rewrite lookup_app, H. simpl. now destruct (assoc c es).
Qed.

(** [shutil.copyfile] of a regular file to the name [name] of an existing
    directory, the name being free or a regular file: the file is written
    and no other regular file changes. *)
Lemma copyfile_into env t src dir name data es :
  stat env t src = Some (File data) ->
  stat env t dir = Some (Dir es) ->
  valid_name name = true ->
  (forall sub, assoc name es <> Some (Dir sub)) ->
  resolve env src <> (resolve env dir ++ [name])%list ->
  exists t',
    copyfile env t src (PosixPath.join2 dir name) = inr t' /\
    lookup (resolve env dir ++ [name])%list t' = Some (File data) /\
    (forall q d,
        q <> (resolve env dir ++ [name])%list ->
        lookup q t = Some (File d) -> lookup q t' = Some (File d)).
Proof.
  intros Hs Hd Hv Hfree Hne.
  pose proof (stat_nonempty _ _ _ _ Hd) as Hd0.
  pose proof (resolve_join2 env dir name Hd0 Hv) as Hres.
  pose proof (stat_child env t dir es name Hd Hv) as Hdst.
  pose proof (join2_nonempty dir name Hd0) as Hdst0.
  set (dst := PosixPath.join2 dir name) in *.
  set (pd := (resolve env dir ++ [name])%list) in *.
  rewrite stat_lookup in Hd by assumption.
  assert (Hlpd : lookup pd t = assoc name es) by (now apply lookup_child).
  assert (Hnodir : forall sub, lookup pd t <> Some (Dir sub))
    by (intros sub; rewrite Hlpd; apply Hfree).
  destruct (put_succeeds_child (resolve env dir) name (File data) t es Hd) as [t' Hput].
  fold pd in Hput.
  exists t'. split; [| split].
  - unfold copyfile, samefile. rewrite Hs, Hdst, Hres.
    rewrite (path_eqb_neq _ _ Hne), andb_false_r.
    unfold write_file, locate. destruct dst as [| c0 s0]; [congruence |].
    rewrite Hres. fold pd.
    destruct (lookup pd t) as [[old | sub] |] eqn:Hl.
    + now rewrite Hput.
    + exfalso. now apply (Hnodir sub).
    + now rewrite Hput.
  - apply (put_lookup_same _ _ _ _ Hput).
  - intros q d Hq Hlq.
    apply (put_keeps_file pd (File data) q t t' d); auto.
    now apply (file_not_below pd q t d).
Qed.

(** X9: copying a regular file.  To a name in an existing directory (the
    name free, or a regular file that is then overwritten) and into an
    existing directory (under the base name of the source) the copy has the
    content of the source, the source is still there, and no other regular
    file changes; onto itself the copy is refused with an error line and
    nothing changes. *)
Theorem copy_item_copies_a_regular_file :
  forall (env : Env) (source : string) (w : World) (data : string),
    stat env (fs w) source = Some (File data) ->
    (forall dir name es,
        stat env (fs w) dir = Some (Dir es) ->
        valid_name name = true ->
        (forall sub, assoc name es <> Some (Dir sub)) ->
        resolve env source <> (resolve env dir ++ [name])%list ->
        let destination := PosixPath.join2 dir name in
        exists t',
          copy_item env source destination w =
          (inr tt,
           emit (with_fs w t')
             (Printed (PosixPath.basename source ++ " was copied to " ++ destination))) /\
          (PosixPath.basename source = name ->
           copy_item env source dir w =
           (inr tt,
            emit (with_fs w t')
              (Printed (PosixPath.basename source ++ " was copied to " ++ dir)))) /\
          stat env t' destination = Some (File data) /\
          stat env t' source = Some (File data) /\
          (forall q d,
              q <> resolve env destination ->
              lookup q (fs w) = Some (File d) -> lookup q t' = Some (File d))) /\
    (forall destination,
        destination <> "" ->
        resolve env destination = resolve env source ->
        copy_item env source destination w =
        (inr tt,
         emit w (Printed ("Error copying item: "
                          ++ exn_str (SameFileError source destination))))).
Proof.
  intros env source w data Hs.
  pose proof (stat_nonempty _ _ _ _ Hs) as Hs0.
  split.
  - intros dir name es Hd Hv Hfree Hne destination.
    pose proof (stat_nonempty _ _ _ _ Hd) as Hd0.
    pose proof (resolve_join2 env dir name Hd0 Hv) as Hres.
    pose proof (stat_child env (fs w) dir es name Hd Hv) as Hdst.
    pose proof (join2_nonempty dir name Hd0) as Hdst0.
    destruct (copyfile_into env (fs w) source dir name data es Hs Hd Hv Hfree Hne)
      as (t' & Hcopy & Hnew & Hframe).
    fold destination in Hres, Hdst, Hdst0, Hcopy.
    assert (Hnotdir : is_dir (stat env (fs w) destination) = false).
    { rewrite Hdst. destruct (assoc name es) as [[old | sub] |]; auto.
      exfalso. now apply (Hfree sub). }
    exists t'. split; [| split; [| split; [| split]]].
    + unfold copy_item, try_except.
      unfold bind at 1. unfold os_path_isdir at 1, ask. rewrite Hs. cbn [is_dir].
      unfold bind at 1. unfold shutil_copy, bind at 1, os_path_isdir at 1, ask.
      rewrite Hnotdir. unfold syscall. now rewrite Hcopy.
    + intros Hbase. unfold copy_item, try_except.
      unfold bind at 1. unfold os_path_isdir at 1, ask. rewrite Hs. cbn [is_dir].
      unfold bind at 1. unfold shutil_copy, bind at 1, os_path_isdir at 1, ask.
      rewrite Hd. cbn [is_dir]. rewrite Hbase. fold destination.
      unfold syscall. now rewrite Hcopy.
    + rewrite stat_lookup by assumption. now rewrite Hres.
    + rewrite stat_lookup by assumption. apply (Hframe _ data Hne).
      now rewrite <- stat_lookup.
    + intros q d Hq. apply Hframe. now rewrite <- Hres.
  - intros destination Hd0 Hres.
    assert (Hd : stat env (fs w) destination = Some (File data)).
    { rewrite stat_lookup by assumption. rewrite Hres.
      now rewrite <- stat_lookup. }
    unfold copy_item, try_except.
    unfold bind at 1. unfold os_path_isdir at 1, ask. rewrite Hs. cbn [is_dir].
    unfold bind at 1. unfold shutil_copy, bind at 1, os_path_isdir at 1, ask.
    rewrite Hd. cbn [is_dir]. unfold syscall, copyfile, samefile.
    rewrite Hs, Hd, Hres. unfold path_eqb. rewrite is_prefix_refl. reflexivity.
Qed.

Lemma copy_item_copies_a_regular_file_witness :
  exists t',
    copy_item env0 "/home/u/a.txt" "/home/u/b/n.txt" (world0 []) =
    (inr tt,
     emit (with_fs (world0 []) t')
       (Printed "a.txt was copied to /home/u/b/n.txt")) /\
    stat env0 t' "/home/u/b/n.txt" = Some (File "0123456789") /\
    stat env0 t' "/home/u/a.txt" = Some (File "0123456789").
Proof.
  destruct (proj1 (copy_item_copies_a_regular_file env0 "/home/u/a.txt" (world0 [])
                     "0123456789" eq_refl)
              "/home/u/b" "n.txt"
              [("N", Dir [("y", File "2")]); ("n.txt", File "second")]
              eq_refl eq_refl)
    as (t' & Hrun & _ & Hdst & Hsrc & _).
  - intros sub. discriminate.
  - vm_compute. discriminate.
  - exists t'. repeat split; assumption.
Defined.

Lemma is_prefix_snoc a : forall b x,
  is_prefix a (b ++ [x])%list = true -> is_prefix a b = true \/ a = (b ++ [x])%list.
Proof.
  induction a as [| y a IH]; intros b x H; [now left |].
  destruct b as [| z b]; simpl in H.
  - apply andb_true_iff in H. destruct H as [Hyx H].
    apply String.eqb_eq in Hyx. subst. destruct a; [now right | discriminate].
  - apply andb_true_iff in H. destruct H as [Hyz H].
    destruct (IH _ _ H) as [Hl | Hr].
    + left. simpl. now rewrite Hyz.
    + right. apply String.eqb_eq in Hyz. subst. reflexivity.
Qed.

(** Nothing exists at or below a missing path. *)
Lemma missing_not_above p q t n :
  lookup p t = None -> lookup q t = Some n -> is_prefix p q = false.
Proof.
  intros Hp Hq. destruct (is_prefix p q) eqn:Hpre; [| reflexivity].
  destruct (is_prefix_app _ _ Hpre) as [r ->].
  rewrite lookup_app, Hp in Hq. discriminate.
Qed.

Lemma mkdirs_child pp name : forall t es,
  lookup pp t = Some (Dir es) -> assoc name es = None ->
  exists t', mkdirs (pp ++ [name])%list t = Some t'.
Proof.
  induction pp as [| k r IH]; intros t es H Hn; simpl in *.
  - inversion H; subst. rewrite Hn. eauto.
  - destruct t as [fd | es0]; [discriminate |].
    destruct (assoc k es0) as [m0 |]; [| discriminate].
    destruct (IH _ _ H Hn) as [m' ->]. eauto.
Qed.

Lemma chain_lookup_apart cs : forall ks,
  is_prefix ks cs = false -> lookup ks (chain cs) = None.
Proof.
  induction cs as [| c r IH]; intros [| k ks] H; simpl in *; try discriminate; auto.
  destruct (String.eqb k c); simpl in H; auto.
Qed.

(** [mkdirs] changes nothing apart from the path it makes. *)
Lemma mkdirs_lookup_other p : forall q t t',
  apart p q -> mkdirs p t = Some t' -> lookup q t' = lookup q t.
Proof.
  induction p as [| c cs IH]; intros q t t' [Hpq Hqp] H; [discriminate |].
  destruct q as [| k ks]; [discriminate |].
  simpl in Hpq, Hqp, H. destruct t as [fd | es]; [discriminate |].
  destruct (String.eqb_spec c k) as [-> | Hne].
  - rewrite String.eqb_refl in Hqp. simpl in Hpq, Hqp.
    destruct (assoc k es) as [m0 |] eqn:Hm.
    + destruct (mkdirs cs m0) as [m' |] eqn:Hmk; [| discriminate].
      inversion H; subst. cbn [lookup]. rewrite assoc_set_same, Hm.
      apply (IH ks m0 m'); [split; assumption | assumption].
    + inversion H; subst. cbn [lookup]. rewrite assoc_set_same, Hm.
      now apply chain_lookup_apart.
  - destruct (assoc c es) as [m0 |].
    + destruct (mkdirs cs m0) as [m' |]; [| discriminate].
      inversion H; subst. cbn [lookup].
      rewrite assoc_set_other by congruence. reflexivity.
    + inversion H; subst. cbn [lookup].
      rewrite assoc_set_other by congruence. reflexivity.
Qed.

(** Unlinking a path leaves the directories that are not below it. *)
Lemma del_keeps_dir p : forall q t t' es,
  is_prefix p q = false ->
  lookup q t = Some (Dir es) ->
  del p t = Some t' ->
  exists es', lookup q t' = Some (Dir es').
Proof.
  induction p as [| c cs IH]; intros q t t' es Hpre Hq H; [discriminate |].
  simpl in H. destruct t as [fd | es0]; [discriminate |].
  destruct (assoc c es0) as [m0 |] eqn:Hm; [| discriminate].
  destruct q as [| k ks].
  - destruct cs as [| c2 r].
    + inversion H; subst. simpl. eauto.
    + destruct (del (c2 :: r) m0) as [m' |]; [| discriminate].
      inversion H; subst. simpl. eauto.
  - simpl in Hpre, Hq.
    destruct (String.eqb_spec c k) as [-> | Hne].
    + simpl in Hpre. rewrite Hm in Hq.
      destruct cs as [| c2 r]; [discriminate |].
      destruct (del (c2 :: r) m0) as [m' |] eqn:Hdel; [| discriminate].
      inversion H; subst. cbn [lookup]. rewrite assoc_set_same. eauto.
    + destruct cs as [| c2 r].
      * inversion H; subst. cbn [lookup].
        rewrite assoc_remove_other by congruence. eauto.
      * destruct (del (c2 :: r) m0) as [m' |]; [| discriminate].
        inversion H; subst. cbn [lookup].
        rewrite assoc_set_other by congruence. eauto.
Qed.

Lemma last_in {A} (l : list A) (x : A) : l <> [] -> In (last l x) l.
Proof.
  induction l as [| a r IH]; [congruence |]. intros _.
  destruct r as [| b r']; [now left |]. right. apply IH. discriminate.
Qed.

Lemma basename_sepfree p : Str.sepfree (PosixPath.basename p) = true.
Proof.
  unfold PosixPath.basename.
  pose proof (split_sepfree p) as H. rewrite Forall_forall in H.
  apply H, last_in, split_nonnil.
Qed.

(** The name of a backup is a name an entry can have. *)
Lemma valid_deleted_name p : valid_name ("deleted_" ++ PosixPath.basename p) = true.
Proof.
  unfold valid_name. simpl. rewrite basename_sepfree. reflexivity.
Qed.

(** X10: deleting a regular file, with the backup directory in place and
    the backup name free or held by a regular file: [delete_item] reports
    success, the backup [deleted_<name>] holds the content of the file, the
    file is gone, and every other regular file is as it was. *)
Theorem delete_item_backs_up_a_regular_file :
  forall (env : Env) (item backup_dir : string) (w : World)
         (data : string) (es : list (string * node)),
    stat env (fs w) item = Some (File data) ->
    stat env (fs w) backup_dir = Some (Dir es) ->
    (forall sub, assoc ("deleted_" ++ PosixPath.basename item) es <> Some (Dir sub)) ->
    resolve env item <>
      (resolve env backup_dir ++ [("deleted_" ++ PosixPath.basename item)%string])%list ->
    exists t',
      delete_item env item backup_dir w =
      (inr tt,
       emit (with_fs w t')
         (Printed (PosixPath.basename item ++ " was deleted and backed up."))) /\
      stat env t' (backup_target item backup_dir) = Some (File data) /\
      stat env t' item = None /\
      (forall q d,
          q <> resolve env item ->
          q <> resolve env (backup_target item backup_dir) ->
          lookup q (fs w) = Some (File d) -> lookup q t' = Some (File d)).
Proof.
  intros env item backup_dir w data es Hi Hb Hfree Hne.
  set (name := "deleted_" ++ PosixPath.basename item) in *.
  pose proof (valid_deleted_name item) as Hv. fold name in Hv.
  pose proof (stat_nonempty _ _ _ _ Hi) as Hi0.
  pose proof (stat_nonempty _ _ _ _ Hb) as Hb0.
  pose proof (resolve_join2 env backup_dir name Hb0 Hv) as Hres.
  pose proof (stat_child env (fs w) backup_dir es name Hb Hv) as Htgt.
  pose proof (join2_nonempty backup_dir name Hb0) as Htgt0.
  destruct (copyfile_into env (fs w) item backup_dir name data es Hi Hb Hv Hfree Hne)
    as (t1 & Hcopy & Hnew & Hframe).
  change (PosixPath.join2 backup_dir name) with (backup_target item backup_dir) in *.
  set (target := backup_target item backup_dir) in *.
  set (ps := resolve env item) in *.
  set (pd := (resolve env backup_dir ++ [name])%list) in *.
  assert (Hlp : lookup ps (fs w) = Some (File data))
    by (unfold ps; now rewrite <- stat_lookup).
  assert (Hlp1 : lookup ps t1 = Some (File data)) by (now apply (Hframe ps data)).
  assert (Hpre : is_prefix ps pd = false)
    by (now apply (file_not_above ps pd t1 data (File data))).
  assert (Hroot : ps <> []) by (intros E; rewrite E in Hpre; discriminate).
  destruct (del_succeeds ps t1 _ Hroot Hlp1) as [t2 Hdel].
  assert (Hnotdir : is_dir (stat env (fs w) target) = false).
  { rewrite Htgt. destruct (assoc name es) as [[old | sub] |]; auto.
    exfalso. now apply (Hfree sub). }
  exists t2. split; [| split; [| split]].
  - unfold delete_item, try_except.
    unfold bind at 1. unfold os_path_exists at 1, ask. rewrite Hb. cbn [is_some negb].
    unfold bind at 1. unfold ret at 1.
    unfold bind at 1. unfold os_path_isdir at 1, ask. rewrite Hi. cbn [is_dir].
    unfold bind at 1. unfold shutil_copy, bind at 1, os_path_isdir at 1, ask.
    fold name. change (PosixPath.join2 backup_dir name) with target.
    rewrite Hnotdir. unfold syscall. rewrite Hcopy.
    unfold bind at 1. unfold os_path_isdir at 1, ask. cbn [fs with_fs].
    rewrite (stat_lookup env t1 item Hi0). fold ps. rewrite Hlp1. cbn [is_dir].
    unfold bind at 1. unfold os_remove, syscall, remove. cbn [fs with_fs].
    rewrite (stat_lookup env t1 item Hi0). fold ps. rewrite Hlp1, Hdel.
    reflexivity.
  - rewrite (stat_lookup env t2 target Htgt0), Hres.
    now apply (del_keeps_file ps pd t1 t2 data).
  - rewrite (stat_lookup env t2 item Hi0). fold ps.
    apply (del_lookup_same _ _ _ Hdel).
  - intros q d Hq1 Hq2 Hlq. rewrite Hres in Hq2.
    pose proof (Hframe q d Hq2 Hlq) as Hlq1.
    apply (del_keeps_file ps q t1 t2 d); auto.
    apply (file_not_above ps q t1 data (File d)); auto.
Qed.

Lemma delete_item_backs_up_a_regular_file_witness :
  exists t',
    delete_item env0 "/home/u/a.txt" "/home/u/backups" (world0 []) =
    (inr tt,
     emit (with_fs (world0 []) t') (Printed "a.txt was deleted and backed up.")) /\
    stat env0 t' "/home/u/backups/deleted_a.txt" = Some (File "0123456789") /\
    stat env0 t' "/home/u/a.txt" = None.
Proof.
  destruct (delete_item_backs_up_a_regular_file env0 "/home/u/a.txt" "/home/u/backups"
              (world0 []) "0123456789" [("deleted_old", File "old")] eq_refl eq_refl)
    as (t' & Hrun & Hbackup & Hgone & _).
  - intros sub. discriminate.
  - vm_compute. discriminate.
  - exists t'. repeat split; assumption.
Defined.

(** [os.rename] of a regular file to the name [name] of an existing
    directory, the name being free or a regular file. *)
Lemma rename_file_into env t src dir name data es :
  stat env t src = Some (File data) ->
  stat env t dir = Some (Dir es) ->
  valid_name name = true ->
  (forall sub, assoc name es <> Some (Dir sub)) ->
  resolve env src <> (resolve env dir ++ [name])%list ->
  exists t',
    rename env t src (PosixPath.join2 dir name) = inr t' /\
    lookup (resolve env dir ++ [name])%list t' = Some (File data) /\
    lookup (resolve env src) t' = None /\
    (forall q d,
        q <> resolve env src -> q <> (resolve env dir ++ [name])%list ->
        lookup q t = Some (File d) -> lookup q t' = Some (File d)).
Proof.
  intros Hs Hd Hv Hfree Hne.
  pose proof (stat_nonempty _ _ _ _ Hs) as Hs0.
  pose proof (stat_nonempty _ _ _ _ Hd) as Hd0.
  pose proof (resolve_join2 env dir name Hd0 Hv) as Hres.
  pose proof (join2_nonempty dir name Hd0) as Hdst0.
  set (dst := PosixPath.join2 dir name) in *.
  set (ps := resolve env src) in *.
  set (pp := resolve env dir) in *.
  set (pd := (pp ++ [name])%list) in *.
  assert (Hlp : lookup ps t = Some (File data))
    by (unfold ps; now rewrite <- stat_lookup).
  assert (Hlpp : lookup pp t = Some (Dir es))
    by (unfold pp; now rewrite <- stat_lookup).
  assert (Hlpd : lookup pd t = assoc name es) by (now apply lookup_child).
  assert (Hnodir : forall sub, lookup pd t <> Some (Dir sub))
    by (intros sub; rewrite Hlpd; apply Hfree).
  assert (Hpp : is_prefix ps pp = false).
  { apply (file_not_above ps pp t data (Dir es)); auto. intros E.
    rewrite E in Hlp. congruence. }
  assert (Hpq : is_prefix ps pd = false).
  { destruct (is_prefix ps pd) eqn:E; [| reflexivity].
    destruct (is_prefix_snoc _ _ _ E) as [H1 | H1];
      [congruence | exfalso; now apply Hne]. }
  assert (Hqp : is_prefix pd ps = false)
    by (apply (file_not_below pd ps t data); auto).
  assert (Hroot : ps <> []) by (intros E; rewrite E in Hpq; discriminate).
  destruct (del_succeeds ps t _ Hroot Hlp) as [t1 Hdel].
  destruct (del_keeps_dir ps pp t t1 es Hpp Hlpp Hdel) as [es1 Hlpp1].
  destruct (put_succeeds_child pp name (File data) t1 es1 Hlpp1) as [t2 Hput].
  fold pd in Hput.
  exists t2. split; [| split; [| split]].
  - assert (Hloc : locate env dst = Some pd).
    { unfold locate. rewrite <- Hres. destruct dst; [congruence | reflexivity]. }
    unfold rename. cbv zeta. rewrite Hs, Hloc, Hres. fold ps.
    rewrite (path_eqb_neq _ _ Hne), Hpq, Hqp, Hdel, Hput.
    destruct (lookup pd t) as [[old | sub] |] eqn:Hl; auto.
    exfalso. now apply (Hnodir sub).
  - apply (put_lookup_same _ _ _ _ Hput).
  - rewrite (put_lookup_other pd (File data) ps t1 t2); [| split; assumption | assumption].
    apply (del_lookup_same _ _ _ Hdel).
  - intros q d Hq1 Hq2 Hlq.
    assert (Hlq1 : lookup q t1 = Some (File d)).
    { apply (del_keeps_file ps q t t1 d); auto.
      apply (file_not_above ps q t data (File d)); auto. }
    apply (put_keeps_file pd (File data) q t1 t2 d); auto.
    apply (file_not_below pd q t1 d); auto.
    intros sub. rewrite (del_lookup_other ps pd t t1); [apply Hnodir | | assumption].
    split; assumption.
Qed.

(** X11: moving a regular file to a name in an existing directory (the
    name free, or a regular file that is then replaced): [move_item] reports
    the move, the destination holds the content, the source is gone, and
    every other regular file is as it was. *)
Theorem move_item_moves_a_regular_file :
  forall (env : Env) (source dir name : string) (w : World)
         (data : string) (es : list (string * node)),
    stat env (fs w) source = Some (File data) ->
    stat env (fs w) dir = Some (Dir es) ->
    valid_name name = true ->
    (forall sub, assoc name es <> Some (Dir sub)) ->
    resolve env source <> (resolve env dir ++ [name])%list ->
    let destination := PosixPath.join2 dir name in
    exists t',
      move_item env source destination w =
      (inr tt,
       emit (with_fs w t')
         (Printed (PosixPath.basename source ++ " was moved to " ++ destination))) /\
      stat env t' destination = Some (File data) /\
      stat env t' source = None /\
      (forall q d,
          q <> resolve env source -> q <> resolve env destination ->
          lookup q (fs w) = Some (File d) -> lookup q t' = Some (File d)).
Proof.
  intros env source dir name w data es Hs Hd Hv Hfree Hne destination.
  pose proof (stat_nonempty _ _ _ _ Hs) as Hs0.
  pose proof (stat_nonempty _ _ _ _ Hd) as Hd0.
  pose proof (resolve_join2 env dir name Hd0 Hv) as Hres.
  pose proof (stat_child env (fs w) dir es name Hd Hv) as Hdst.
  pose proof (join2_nonempty dir name Hd0) as Hdst0.
  destruct (rename_file_into env (fs w) source dir name data es Hs Hd Hv Hfree Hne)
    as (t' & Hren & Hnew & Hgone & Hframe).
  fold destination in Hres, Hdst, Hdst0, Hren.
  assert (Hnotdir : is_dir (stat env (fs w) destination) = false).
  { rewrite Hdst. destruct (assoc name es) as [[old | sub] |]; auto.
    exfalso. now apply (Hfree sub). }
  exists t'. split; [| split; [| split]].
  - unfold move_item, try_except. unfold bind at 1.
    unfold shutil_move, bind, os_path_isdir, os_path_exists, ask. cbv beta iota.
    rewrite Hnotdir. cbn [andb]. cbv beta iota zeta.
    unfold try_except_OSError, os_rename, syscall. rewrite Hren. reflexivity.
  - rewrite stat_lookup by assumption. now rewrite Hres.
  - rewrite stat_lookup by assumption. exact Hgone.
  - intros q d Hq1 Hq2. apply Hframe; auto. now rewrite <- Hres.
Qed.

Lemma move_item_moves_a_regular_file_witness :
  exists t',
    move_item env0 "/home/u/a.txt" "/home/u/b/moved.txt" (world0 []) =
    (inr tt,
     emit (with_fs (world0 []) t')
       (Printed "a.txt was moved to /home/u/b/moved.txt")) /\
    stat env0 t' "/home/u/b/moved.txt" = Some (File "0123456789") /\
    stat env0 t' "/home/u/a.txt" = None.
Proof.
  destruct (move_item_moves_a_regular_file env0 "/home/u/a.txt" "/home/u/b" "moved.txt"
              (world0 []) "0123456789"
              [("N", Dir [("y", File "2")]); ("n.txt", File "second")]
              eq_refl eq_refl eq_refl)
    as (t' & Hrun & Hdst & Hsrc & _).
  - intros sub. discriminate.
  - vm_compute. discriminate.
  - exists t'. repeat split; assumption.
Defined.

(** ** Copying a directory *)

Lemma locate_nonempty env s : s <> "" -> locate env s = Some (resolve env s).
Proof. unfold locate. destruct s; [congruence | reflexivity]. Qed.

(** [shutil.copytree] to a free name in an existing directory that does
    not lie inside the source. *)
Lemma copytree_into env source dir name w entries es :
  stat env (fs w) source = Some (Dir entries) ->
  stat env (fs w) dir = Some (Dir es) ->
  valid_name name = true ->
  assoc name es = None ->
  is_prefix (resolve env source) (resolve env dir) = false ->
  exists t',
    shutil_copytree env source (PosixPath.join2 dir name) w = (inr tt, with_fs w t') /\
    lookup (resolve env dir ++ [name])%list t' = Some (Dir entries) /\
    lookup (resolve env source) t' = Some (Dir entries) /\
    apart (resolve env source) (resolve env dir ++ [name])%list /\
    (forall q, apart (resolve env dir ++ [name])%list q -> lookup q t' = lookup q (fs w)).
Proof.
  intros Hs Hd Hv Hfree Hout.
  pose proof (stat_nonempty _ _ _ _ Hs) as Hs0.
  pose proof (stat_nonempty _ _ _ _ Hd) as Hd0.
  pose proof (resolve_join2 env dir name Hd0 Hv) as Hres.
  pose proof (join2_nonempty dir name Hd0) as Hdst0.
  set (destination := PosixPath.join2 dir name) in *.
  set (ps := resolve env source) in *.
  set (pp := resolve env dir) in *.
  set (pd := (pp ++ [name])%list) in *.
  assert (Hlp : lookup ps (fs w) = Some (Dir entries))
    by (unfold ps; now rewrite <- stat_lookup).
  assert (Hlpp : lookup pp (fs w) = Some (Dir es))
    by (unfold pp; now rewrite <- stat_lookup).
  assert (Hlpd : lookup pd (fs w) = None)
    by (unfold pd; rewrite (lookup_child pp name (fs w) es Hlpp); exact Hfree).
  assert (Hpq : is_prefix ps pd = false).
  { destruct (is_prefix ps pd) eqn:E; [| reflexivity].
    destruct (is_prefix_snoc _ _ _ E) as [H1 | H1]; [congruence |].
    rewrite H1 in Hlp. fold pd in Hlp. congruence. }
  assert (Hqp : is_prefix pd ps = false)
    by (now apply (missing_not_above pd ps (fs w) (Dir entries))).
  destruct (mkdirs_child pp name (fs w) es Hlpp Hfree) as [t1 Hmk]. fold pd in Hmk.
  destruct (put_succeeds pd (Dir entries) t1 _ (mkdirs_lookup _ _ _ Hmk)) as [t2 Hput].
  exists t2. split; [| split; [| split; [| split]]].
  - unfold shutil_copytree. rewrite Hs.
    unfold bind at 1. unfold os_makedirs, syscall, makedirs.
    rewrite (locate_nonempty env destination Hdst0), Hres, Hmk.
    fold ps. rewrite Hpq. cbn [andb fs with_fs]. rewrite Hput. reflexivity.
  - apply (put_lookup_same _ _ _ _ Hput).
  - rewrite (put_lookup_other pd (Dir entries) ps t1 t2); [| split; assumption | assumption].
    rewrite (mkdirs_lookup_other pd ps (fs w) t1); [exact Hlp | split; assumption | assumption].
  - split; assumption.
  - intros q Hq.
    rewrite (put_lookup_other pd (Dir entries) q t1 t2 Hq Hput).
    apply (mkdirs_lookup_other pd q (fs w) t1 Hq Hmk).
Qed.

(** X12: copying a directory to a free name in an existing directory that
    does not lie inside the source: [copy_item] reports the copy, the
    destination holds the same tree as the source, the source is unchanged,
    and so is everything apart from the destination. *)
Theorem copy_item_copies_a_directory :
  forall (env : Env) (source dir name : string) (w : World)
         (entries es : list (string * node)),
    stat env (fs w) source = Some (Dir entries) ->
    stat env (fs w) dir = Some (Dir es) ->
    valid_name name = true ->
    assoc name es = None ->
    is_prefix (resolve env source) (resolve env dir) = false ->
    let destination := PosixPath.join2 dir name in
    exists t',
      copy_item env source destination w =
      (inr tt,
       emit (with_fs w t')
         (Printed (PosixPath.basename source ++ " was copied to " ++ destination))) /\
      stat env t' destination = Some (Dir entries) /\
      stat env t' source = Some (Dir entries) /\
      (forall q, apart (resolve env destination) q -> lookup q t' = lookup q (fs w)).
Proof.
  intros env source dir name w entries es Hs Hd Hv Hfree Hout destination.
  pose proof (stat_nonempty _ _ _ _ Hs) as Hs0.
  pose proof (stat_nonempty _ _ _ _ Hd) as Hd0.
  pose proof (resolve_join2 env dir name Hd0 Hv) as Hres.
  pose proof (join2_nonempty dir name Hd0) as Hdst0.
  destruct (copytree_into env source dir name w entries es Hs Hd Hv Hfree Hout)
    as (t' & Hrun & Hnew & Hsrc & _ & Hframe).
  fold destination in Hres, Hdst0, Hrun.
  exists t'. split; [| split; [| split]].
  - unfold copy_item, try_except.
    unfold bind at 1. unfold os_path_isdir at 1, ask. rewrite Hs. cbn [is_dir].
    unfold bind at 1. rewrite Hrun. reflexivity.
  - rewrite stat_lookup by assumption. now rewrite Hres.
  - rewrite stat_lookup by assumption. exact Hsrc.
  - intros q Hq. apply Hframe. now rewrite <- Hres.
Qed.

Lemma copy_item_copies_a_directory_witness :
  exists t',
    copy_item env0 "/home/u/a" "/home/u/backups/a_copy" (world0 []) =
    (inr tt,
     emit (with_fs (world0 []) t')
       (Printed "a was copied to /home/u/backups/a_copy")) /\
    stat env0 t' "/home/u/backups/a_copy" =
      Some (Dir [("N", Dir [("x", File "1")]); ("n.txt", File "first")]) /\
    stat env0 t' "/home/u/a" =
      Some (Dir [("N", Dir [("x", File "1")]); ("n.txt", File "first")]).
Proof.
  destruct (copy_item_copies_a_directory env0 "/home/u/a" "/home/u/backups" "a_copy"
              (world0 [])
              [("N", Dir [("x", File "1")]); ("n.txt", File "first")]
              [("deleted_old", File "old")]
              eq_refl eq_refl eq_refl eq_refl eq_refl)
    as (t' & Hrun & Hdst & Hsrc & _).
  exists t'. repeat split; assumption.
Defined.

(** ** Deleting a directory *)

(** X13: deleting a directory, with the backup directory in place, not
    inside the item (nor the item itself) and the backup name free:
    [delete_item] reports success, the backup [deleted_<name>] holds the
    tree the item held, and the item is gone. *)
Theorem delete_item_backs_up_a_directory :
  forall (env : Env) (item backup_dir : string) (w : World)
         (entries es : list (string * node)),
    stat env (fs w) item = Some (Dir entries) ->
    stat env (fs w) backup_dir = Some (Dir es) ->
    assoc ("deleted_" ++ PosixPath.basename item) es = None ->
    is_prefix (resolve env item) (resolve env backup_dir) = false ->
    exists t',
      delete_item env item backup_dir w =
      (inr tt,
       emit (with_fs w t')
         (Printed (PosixPath.basename item ++ " was deleted and backed up."))) /\
      stat env t' (backup_target item backup_dir) = Some (Dir entries) /\
      stat env t' item = None /\
      (forall q,
          apart (resolve env item) q ->
          apart (resolve env (backup_target item backup_dir)) q ->
          lookup q t' = lookup q (fs w)).
Proof.
  intros env item backup_dir w entries es Hi Hb Hfree Hout.
  set (name := "deleted_" ++ PosixPath.basename item) in *.
  pose proof (valid_deleted_name item) as Hv. fold name in Hv.
  pose proof (stat_nonempty _ _ _ _ Hi) as Hi0.
  pose proof (stat_nonempty _ _ _ _ Hb) as Hb0.
  pose proof (resolve_join2 env backup_dir name Hb0 Hv) as Hres.
  pose proof (join2_nonempty backup_dir name Hb0) as Htgt0.
  destruct (copytree_into env item backup_dir name w entries es Hi Hb Hv Hfree Hout)
    as (t1 & Hcopy & Hnew & Hsrc & Hap & Hframe).
  change (PosixPath.join2 backup_dir name) with (backup_target item backup_dir) in *.
  set (target := backup_target item backup_dir) in *.
  set (ps := resolve env item) in *.
  set (pd := (resolve env backup_dir ++ [name])%list) in *.
  assert (Hroot : ps <> []) by (intros E; rewrite E in Hout; discriminate).
  destruct (del_succeeds ps t1 _ Hroot Hsrc) as [t2 Hdel].
  exists t2. split; [| split; [| split]].
  - unfold delete_item, try_except.
    unfold bind at 1. unfold os_path_exists at 1, ask. rewrite Hb. cbn [is_some negb].
    unfold bind at 1. unfold ret at 1.
    unfold bind at 1. unfold os_path_isdir at 1, ask. rewrite Hi. cbn [is_dir].
    unfold bind at 1. fold name. change (PosixPath.join2 backup_dir name) with target.
    rewrite Hcopy.
    unfold bind at 1. unfold os_path_isdir at 1, ask. cbn [fs with_fs].
    rewrite (stat_lookup env t1 item Hi0). fold ps. rewrite Hsrc. cbn [is_dir].
    unfold bind at 1. unfold shutil_rmtree, syscall, rmtree. cbn [fs with_fs].
    rewrite (stat_lookup env t1 item Hi0). fold ps. rewrite Hsrc, Hdel.
    reflexivity.
  - rewrite (stat_lookup env t2 target Htgt0), Hres.
    rewrite (del_lookup_other ps pd t1 t2 Hap Hdel). exact Hnew.
  - rewrite (stat_lookup env t2 item Hi0). fold ps.
    apply (del_lookup_same _ _ _ Hdel).
  - intros q Hq1 Hq2. rewrite Hres in Hq2.
    rewrite (del_lookup_other ps q t1 t2 Hq1 Hdel).
    now apply Hframe.
Qed.

Lemma delete_item_backs_up_a_directory_witness :
  exists t',
    delete_item env0 "/home/u/a/N" "/home/u/backups" (world0 []) =
    (inr tt,
     emit (with_fs (world0 []) t') (Printed "N was deleted and backed up.")) /\
    stat env0 t' "/home/u/backups/deleted_N" = Some (Dir [("x", File "1")]) /\
    stat env0 t' "/home/u/a/N" = None.
Proof.
  destruct (delete_item_backs_up_a_directory env0 "/home/u/a/N" "/home/u/backups"
              (world0 []) [("x", File "1")] [("deleted_old", File "old")]
              eq_refl eq_refl eq_refl eq_refl)
    as (t' & Hrun & Hbackup & Hgone & _).
  exists t'. repeat split; assumption.
Defined.

